(** * sensors-connectivity: the datalog and frontier feeders

    A shallow embedding of [src/feeders/datalog_feeder.py] and
    [connectivity/src/feeders/frontier_datalog.py].

    Python objects are records, the ordered [dict] that becomes the JSON
    payload is an association list (order of insertion is what [json.dumps]
    prints), the buffer [set] is a duplicate-free list standing for the set in
    its iteration order, and code that talks to the outer world runs in a small
    state-and-exception monad that records every outgoing call. *)

From Stdlib Require Import Ascii.
From stdpp Require Import base list strings sorting pretty.

Local Open Scope string_scope.
Local Open Scope Z_scope.
Local Open Scope list_scope.

(** ** Data model *)

(** Modelled from the spec: the class [Measurement] of the module [stations]
    is not part of the sources at hand.  One immutable sensor reading: the
    station key [public] (also read as the visibility flag, by Python
    truthiness), the model identifier, the position, a timestamp and the
    reading value.  Latitude and longitude are carried as the decimal text
    that [str.format] prints for them.  Equality is structural, as for a
    frozen dataclass. *)
Record Measurement := mkMeasurement {
  public : string;
  model : Z;
  geo_lat : string;
  geo_lon : string;
  timestamp : Z;
  value : Z
}.

#[global] Instance Measurement_eq_dec : EqDecision Measurement.
Proof. solve_decision. Defined.

(** The dict returned by [Measurement.measurement_check]. *)
Record Reading := mkReading {
  r_timestamp : Z;
  r_value : Z
}.

#[global] Instance Reading_eq_dec : EqDecision Reading.
Proof. solve_decision. Defined.

(** Modelled from the spec: [Measurement.measurement_check] is not part of
    the sources at hand; it yields the record of one reading, its timestamp
    and its value. *)
Definition measurement_check (m : Measurement) : Reading :=
  {| r_timestamp := timestamp m; r_value := value m |}.

(** Modelled from the spec: the class [StationData] of the module [stations];
    the feeders only read its [measurement] attribute. *)
Record StationData := mkStationData {
  measurement : Measurement
}.

(** One station group of the payload: the dict with the keys ["model"],
    ["geo"] and ["measurements"]. *)
Record Group := mkGroup {
  g_model : Z;
  g_geo : string;
  g_measurements : list Reading
}.

#[global] Instance Group_eq_dec : EqDecision Group.
Proof. solve_decision. Defined.

(** Python truthiness of a [str]. *)
Definition truthy (s : string) : bool := negb (String.eqb s "").

(** ** Ordered dictionaries *)

Section dict.
Context {V : Type}.

(** [d.get(k)] / [k in d] / [d[k]] *)
Fixpoint dict_get (k : string) (d : list (string * V)) : option V :=
  match d with
  | [] => None
  | (k', v) :: d' => if decide (k = k') then Some v else dict_get k d'
  end.

(** [d[k] = v]: a present key keeps its place, a new key goes last. *)
Fixpoint dict_set (k : string) (v : V) (d : list (string * V))
  : list (string * V) :=
  match d with
  | [] => [(k, v)]
  | (k', v') :: d' =>
      if decide (k = k') then (k, v) :: d' else (k', v') :: dict_set k v d'
  end.

Definition dict_keys (d : list (string * V)) : list string := d.*1.
End dict.

(** ** [sorted(l, key=...)]: a stable sort, ascending in the key *)

Section sorted.
Context {A : Type} (key : A → Z).

Fixpoint insert_by (x : A) (l : list A) : list A :=
  match l with
  | [] => [x]
  | y :: l' =>
      if decide (key x ≤ key y)%Z then x :: y :: l' else y :: insert_by x l'
  end.

Definition sorted (l : list A) : list A := foldr insert_by [] l.
End sorted.

(** ** The snapshot builder *)

Definition _sort_payload (data : list (string * Group)) : list (string * Group) :=
  fold_left
    (λ ordered kv,
       let meas := sorted r_timestamp (g_measurements kv.2) in
       dict_set kv.1
         {| g_model := g_model kv.2; g_geo := g_geo kv.2;
            g_measurements := meas |}
         ordered)
    data [].

(** "{},{}".format(m.geo_lat, m.geo_lon) *)
Definition format_geo (m : Measurement) : string :=
  geo_lat m +:+ "," +:+ geo_lon m.

(** One turn of the loop [for m in buf] of [_get_multihash]. *)
Definition payload_step (payload : list (string * Group)) (m : Measurement)
  : list (string * Group) :=
  match dict_get (public m) payload with
  | Some g =>
      dict_set (public m)
        {| g_model := g_model g; g_geo := g_geo g;
           g_measurements := g_measurements g ++ [measurement_check m] |}
        payload
  | None =>
      dict_set (public m)
        {| g_model := model m; g_geo := format_geo m;
           g_measurements := [measurement_check m] |}
        payload
  end.

(** Lines 31 to 43 of [_get_multihash]: the payload of a buffer that is
    iterated in the order [buf]. *)
Definition build_payload (buf : list Measurement) : list (string * Group) :=
  _sort_payload (fold_left payload_step buf []).

(** ** [json.dumps] at the shape of the payload

    Separators are [", "] and [": "], keys come in dictionary order.  With
    [ensure_ascii], a string keeps its printable ASCII characters; the quote,
    the backslash and the control characters with a short form are escaped
    with a backslash, and every other character is written as a four-digit
    lower-case hexadecimal escape.  A character of a string stands for the
    code point of the same number (below 256). *)

Definition dquote : string := String (ascii_of_nat 34) EmptyString.
Definition backslash : string := String (ascii_of_nat 92) EmptyString.

Definition hex_digit (n : nat) : string :=
  match String.get n "0123456789abcdef" with
  | Some c => String c EmptyString
  | None => "0"
  end.

Definition json_escape_char (c : ascii) : string :=
  let n := nat_of_ascii c in
  if decide (n = 34%nat) then backslash +:+ dquote
  else if decide (n = 92%nat) then backslash +:+ backslash
  else if decide (n = 8%nat) then backslash +:+ "b"
  else if decide (n = 12%nat) then backslash +:+ "f"
  else if decide (n = 10%nat) then backslash +:+ "n"
  else if decide (n = 13%nat) then backslash +:+ "r"
  else if decide (n = 9%nat) then backslash +:+ "t"
  else if decide (32 ≤ n ≤ 126)%nat then String c EmptyString
  else backslash +:+ "u00" +:+ hex_digit (n / 16) +:+ hex_digit (n mod 16).

Fixpoint json_escape (s : string) : string :=
  match s with
  | EmptyString => EmptyString
  | String c s' => json_escape_char c +:+ json_escape s'
  end.

Definition json_str (s : string) : string := dquote +:+ json_escape s +:+ dquote.

Fixpoint json_join (items : list string) : string :=
  match items with
  | [] => ""
  | [x] => x
  | x :: rest => x +:+ ", " +:+ json_join rest
  end.

Definition dumps_reading (r : Reading) : string :=
  "{" +:+ json_str "timestamp" +:+ ": " +:+ pretty (r_timestamp r) +:+ ", "
      +:+ json_str "value" +:+ ": " +:+ pretty (r_value r) +:+ "}".

Definition dumps_group (g : Group) : string :=
  "{" +:+ json_str "model" +:+ ": " +:+ pretty (g_model g) +:+ ", "
      +:+ json_str "geo" +:+ ": " +:+ json_str (g_geo g) +:+ ", "
      +:+ json_str "measurements" +:+ ": ["
      +:+ json_join (dumps_reading <$> g_measurements g) +:+ "]}".

Definition json_dumps (payload : list (string * Group)) : string :=
  "{" +:+ json_join ((λ kv, json_str kv.1 +:+ ": " +:+ dumps_group kv.2) <$> payload)
      +:+ "}".

(** The bytes that [_get_multihash] writes to the temporary file and hands
    to the content store. *)
Definition snapshot (buf : list Measurement) : string :=
  json_dumps (build_payload buf).

(** ** Configuration, the submission store and the outer world *)

(** The nested [config] dict, one field per key the feeders read. *)
Record Config := mkConfig {
  datalog_enable : bool;
  datalog_dump_interval : Z;
  datalog_temporal_username : string;
  datalog_temporal_password : string;
  datalog_pinata_api : string;
  datalog_pinata_secret : string;
  datalog_suri : string;
  robonomics_ipfs_provider : string;
  frontier_enable : bool
}.

(** Modelled from the spec: the class [DataBase] of [utils.database] is not
    part of the sources at hand.  The Submission Ledger Store is a table of
    Submission Records {status, content_id, created_at, payload_snapshot};
    [add_data] appends a row and [update_status] rewrites the status of the
    rows that carry the given content identifier.  Neither fails. *)
Record SubmissionRecord := mkRecord {
  status : string;
  content_id : string;
  created_at : Z;
  payload_snapshot : string
}.

Definition db_add_data (st hash : string) (time : Z) (payload : string)
    (rows : list SubmissionRecord) : list SubmissionRecord :=
  rows ++ [mkRecord st hash time payload].

Definition db_update_status (st hash : string) (rows : list SubmissionRecord)
  : list SubmissionRecord :=
  (λ r, if decide (content_id r = hash)
        then mkRecord st (content_id r) (created_at r) (payload_snapshot r)
        else r) <$> rows.

(** The instance state of [DatalogFeeder]. *)
Record DatalogFeeder := mkFeeder {
  config : Config;
  last_time : Z;
  buffer : list Measurement;
  interval : Z;
  ipfs_endpoint : string;
  db : list SubmissionRecord
}.

Definition set_last_time (t : Z) (self : DatalogFeeder) : DatalogFeeder :=
  mkFeeder (config self) t (buffer self) (interval self) (ipfs_endpoint self) (db self).
Definition set_buffer (b : list Measurement) (self : DatalogFeeder) : DatalogFeeder :=
  mkFeeder (config self) (last_time self) b (interval self) (ipfs_endpoint self) (db self).
Definition set_db (d : list SubmissionRecord) (self : DatalogFeeder) : DatalogFeeder :=
  mkFeeder (config self) (last_time self) (buffer self) (interval self) (ipfs_endpoint self) d.

(** [set.add]: an element already present is absorbed; a new one is put
    last.  The list is one order in which the set may be iterated (a Python
    set iterates in the order of its hash table); what is proved about the
    order of a payload is proved for every order of the buffer. *)
Definition set_add (m : Measurement) (s : list Measurement) : list Measurement :=
  if decide (m ∈ s) then s else s ++ [m].

Inductive level := DEBUG | INFO | WARNING.

(** Every call that leaves the feeder, with its arguments. *)
Inductive event :=
  | Log (lvl : level) (msg : string)
  | TempFileCreate
  | TempFileWrite (name content : string)
  | IpfsAdd (endpoint file : string)
  | DbAddData (st hash : string) (time : Z) (payload : string)
  | TemporalLogin (username password : string)
  | TemporalAdd (file token : string)
  | PinataPinFile (api secret file : string)
  | PinataPinList
  | LedgerClient (seed : string)
  | RecordDatalog (hash : string)
  | DbUpdateStatus (st hash : string)
  | FrontierRecord (text : string).

#[global] Instance level_eq_dec : EqDecision level.
Proof. solve_decision. Defined.
#[global] Instance event_eq_dec : EqDecision event.
Proof. solve_decision. Defined.

(** The outcome of a call: a value, or a raised [Exception] with its text. *)
Inductive result (A : Type) :=
  | Ok (a : A)
  | Raise (e : string).
Arguments Ok {A} a.
Arguments Raise {A} e.

(** What the outer world answers during one call of [DatalogFeeder.feed]:
    the three readings of [time.time()] (line 101, line 53, line 141) and the
    outcome of each remote or file-system call as a function of its arguments.
    Clock readings are integers, in the smallest tick of the clock; the
    feeder only subtracts and compares them.
    - [tempfile_new]: [NamedTemporaryFile(mode="w", delete=False)]; the file
      name.
    - [tempfile_write name content]: [temp.write] and [temp.close].
    - [ipfs_add endpoint file]: [ipfshttpclient.connect] and [client.add];
      the value of [response["Hash"]].
    - [temporal_login u p]: the login POST, [.json()] and [token['token']].
    - [temporal_add file token]: [open(file_path)] and the add POST; the
      status code.
    - [pinata_pin_file api secret file]: [PinataPy(api, secret)] and
      [pin_file_to_ipfs]; [pinata_pin_list]: [pin_list()] and the lookup
      [["rows"][0]["ipfs_pin_hash"]].
    - [ledger_client seed]: [RI.RobonomicsInterface(seed=...)], which builds
      the key pair from the seed and may raise.
    - [record_datalog hash]: [interface.record_datalog]; the receipt. *)
Record Env := mkEnv {
  now_check : Z;
  now_record : Z;
  now_reset : Z;
  tempfile_new : result string;
  tempfile_write : string → string → result unit;
  ipfs_add : string → string → result string;
  temporal_login : string → string → result string;
  temporal_add : string → string → result Z;
  pinata_pin_file : string → string → string → result unit;
  pinata_pin_list : result string;
  ledger_client : string → result unit;
  record_datalog : string → result string
}.

(** ** A state-and-exception monad with a trace of calls

    State changes made before an exception is raised stay, as in Python. *)

Definition M (S A : Type) : Type := S * list event → result A * (S * list event).

#[global] Instance M_ret {S} : MRet (M S) := λ A a σ, (Ok a, σ).

#[global] Instance M_bind {S} : MBind (M S) := λ A B k m σ,
  match m σ with
  | (Ok a, σ') => k a σ'
  | (Raise e, σ') => (Raise e, σ')
  end.

(** [try: body except Exception as e: handler e] *)
Definition try_except {S A} (body : M S A) (handler : string → M S A) : M S A :=
  λ σ, match body σ with
       | (Ok a, σ') => (Ok a, σ')
       | (Raise e, σ') => handler e σ'
       end.

Definition get {S} : M S S := λ σ, (Ok σ.1, σ).
Definition modify {S} (f : S → S) : M S unit := λ σ, (Ok tt, (f σ.1, σ.2)).

(** An outgoing call: it is recorded, and returns or raises as the world
    says.  A log line is a call that returns; a message that prints an object
    (a measurement, the buffer, the payload) carries its literal part only. *)
Definition call {S A} (ev : event) (outcome : result A) : M S A :=
  λ σ, (outcome, (σ.1, σ.2 ++ [ev])).

Definition logging {S} (lvl : level) (msg : string) : M S unit :=
  call (Log lvl msg) (Ok tt).

(** [for x in l: body x] *)
Fixpoint for_each {S A} (l : list A) (body : A → M S unit) : M S unit :=
  match l with
  | [] => mret tt
  | x :: l' => body x ;; for_each l' body
  end.

(** ** [datalog_feeder.py] *)

(** Lines 46 to 54; the payload of lines 31 to 43 is [build_payload].  The
    debug messages that print an object carry their literal part only. *)
Definition _get_multihash (env : Env) (buf : list Measurement) (endpoint : string)
  : M DatalogFeeder (string * string) :=
  let payload := fold_left payload_step buf [] in
  logging DEBUG "Payload before sorting: " ;;
  let payload := _sort_payload payload in
  logging DEBUG "Payload sorted: " ;;
  temp_name ← call TempFileCreate (tempfile_new env);
  logging DEBUG ("Created temp file: " +:+ temp_name) ;;
  call (TempFileWrite temp_name (json_dumps payload))
       (tempfile_write env temp_name (json_dumps payload)) ;;
  hash ← call (IpfsAdd endpoint temp_name) (ipfs_add env endpoint temp_name);
  call (DbAddData "not sent" hash (now_record env) (json_dumps payload)) (Ok tt) ;;
  modify (λ self, set_db (db_add_data "not sent" hash (now_record env)
                            (json_dumps payload) (db self)) self) ;;
  mret (hash, temp_name).

Definition _pin_to_pinata (env : Env) (file_path : string) (cfg : Config)
  : M DatalogFeeder unit :=
  let pinata_api := datalog_pinata_api cfg in
  let pinata_secret := datalog_pinata_secret cfg in
  if truthy pinata_secret then
    try_except
      (logging INFO "Pinning file to Pinata" ;;
       call (PinataPinFile pinata_api pinata_secret file_path)
            (pinata_pin_file env pinata_api pinata_secret file_path) ;;
       hash ← call PinataPinList (pinata_pin_list env);
       logging INFO ("File sent to pinata. Hash is " +:+ hash))
      (λ e, logging WARNING ("Failed while pining file to Pinata. Error: " +:+ e))
  else mret tt.

Definition _pin_to_temporal (env : Env) (file_path : string)
  : M DatalogFeeder unit :=
  self ← get;
  let username := datalog_temporal_username (config self) in
  let password := datalog_temporal_password (config self) in
  if truthy username && truthy password then
    token ← call (TemporalLogin username password) (temporal_login env username password);
    status_code ← call (TemporalAdd file_path token) (temporal_add env file_path token);
    if decide (status_code = 200) then logging INFO "File pinned to Temporal Cloud"
    else mret tt
  else mret tt.

Definition to_datalog (env : Env) (ipfs_hash : string) : M DatalogFeeder unit :=
  logging INFO ipfs_hash ;;
  modify (set_last_time (now_reset env)) ;;
  modify (set_buffer []) ;;
  self ← get;
  call (LedgerClient (datalog_suri (config self)))
       (ledger_client env (datalog_suri (config self))) ;;
  try_except
    (robonomics_receipt ← call (RecordDatalog ipfs_hash) (record_datalog env ipfs_hash);
     logging INFO ("Ipfs hash sent to Robonomics Parachain and included in block "
                   +:+ robonomics_receipt) ;;
     call (DbUpdateStatus "sent" ipfs_hash) (Ok tt) ;;
     modify (λ self, set_db (db_update_status "sent" ipfs_hash (db self)) self))
    (λ e, logging WARNING
            ("Something went wrong during extrinsic submission to Robonomics: " +:+ e)).

(** What the outer world answers during one call of [FrontierFeeder.feed]:
    the outcome of [Account(seed=...)] and [Datalog(account)], which build
    the key pair from the seed and may raise, and the outcome of the [i]-th
    [datalog.record], given the text it submits. *)
Record FrontierEnv := mkFrontierEnv {
  frontier_account : string → result unit;
  frontier_record : nat → string → result string
}.

Section feeders.
(** [PING_MODEL] of [drivers.ping] and [str] of a [Measurement] are not
    part of the sources at hand; they are parameters. *)
Variable PING_MODEL : Z.
Variable measurement_str : Measurement → string.

(** [DatalogFeeder.__init__], given the clock reading and the rows that
    the store already holds. *)
Definition init (cfg : Config) (now : Z) (rows : list SubmissionRecord)
  : DatalogFeeder :=
  {| config := cfg;
     last_time := now;
     buffer := [];
     interval := datalog_dump_interval cfg;
     ipfs_endpoint :=
       if truthy (robonomics_ipfs_provider cfg) then robonomics_ipfs_provider cfg
       else "/ip4/127.0.0.1/tcp/5001/http";
     db := rows |}.

(** The test of line 97. *)
Definition accepted (m : Measurement) : bool :=
  truthy (public m) && negb (bool_decide (model m = PING_MODEL)).

(** The loop of lines 96 to 99. *)
Definition feed_collect (data : list StationData) : M DatalogFeeder unit :=
  for_each data (λ d,
    if accepted (measurement d) then
      logging DEBUG "Adding data to buffer: " ;;
      modify (λ self, set_buffer (set_add (measurement d) (buffer self)) self)
    else mret tt).

(** Lines 101 to 116. *)
Definition feed_flush (env : Env) : M DatalogFeeder unit :=
  self ← get;
  if decide (now_check env - last_time self >= interval self)%Z then
    match buffer self with
    | _ :: _ =>
        logging DEBUG "About to publish collected data..." ;;
        logging DEBUG "Buffer is " ;;
        r ← _get_multihash env (buffer self) (ipfs_endpoint self);
        let ipfs_hash := r.1 in
        let file_path := r.2 in
        _pin_to_temporal env file_path ;;
        _pin_to_pinata env file_path (config self) ;;
        to_datalog env ipfs_hash
    | [] => logging INFO "Nothing to publish"
    end
  else logging INFO "Still collecting measurements...".

Definition feed (env : Env) (data : list StationData) : M DatalogFeeder unit :=
  self ← get;
  if datalog_enable (config self) then
    logging INFO "DatalogFeeder:" ;;
    feed_collect data ;;
    feed_flush env
  else mret tt.

(** The driver calls [feed] once per incoming batch; the instance and the
    trace live on from call to call, whether a call returned or raised. *)
Fixpoint run (calls : list (Env * list StationData))
    (σ : DatalogFeeder * list event) : DatalogFeeder * list event :=
  match calls with
  | [] => σ
  | c :: rest => run rest (feed c.1 c.2 σ).2
  end.

(** ** [frontier_datalog.py] *)

(** The loop of lines 21 to 30, from the [i]-th item on. *)
Fixpoint frontier_loop (fenv : FrontierEnv) (i : nat) (data : list StationData)
  : M Config unit :=
  match data with
  | [] => mret tt
  | d :: data' =>
      try_except
        (let text := measurement_str (measurement d) in
         robonomics_receipt ← call (FrontierRecord text) (frontier_record fenv i text);
         logging INFO
           ("Frontier Datalog: Data sent to Robonomics datalog and included in block "
            +:+ robonomics_receipt))
        (λ e, logging WARNING
           ("Frontier Datalog: Something went wrong during extrinsic submission to Robonomics: "
            +:+ e)) ;;
      frontier_loop fenv (S i) data'
  end.

Definition frontier_feed (fenv : FrontierEnv) (data : list StationData)
  : M Config unit :=
  cfg ← get;
  if frontier_enable cfg then
    call (LedgerClient (datalog_suri cfg)) (frontier_account fenv (datalog_suri cfg)) ;;
    frontier_loop fenv 0%nat data
  else mret tt.
End feeders.


(** ** Reference functions for the statements *)

(** The group that a station gets from the measurements [ms] that carry its
    key, in the order in which the buffer yields them, before sorting. *)
Definition first_group (ms : list Measurement) : option Group :=
  match ms with
  | [] => None
  | m0 :: _ =>
      Some {| g_model := model m0; g_geo := format_geo m0;
              g_measurements := measurement_check <$> ms |}
  end.

Definition extend_group (g : Group) (rs : list Reading) : Group :=
  {| g_model := g_model g; g_geo := g_geo g;
     g_measurements := g_measurements g ++ rs |}.

Definition sort_group (g : Group) : Group :=
  {| g_model := g_model g; g_geo := g_geo g;
     g_measurements := sorted r_timestamp (g_measurements g) |}.

(** The measurements of the buffer that carry the station key [k], in
    iteration order. *)
Definition of_station (k : string) (buf : list Measurement) : list Measurement :=
  filter (λ m, public m = k) buf.

(** Ascending keys, and ascending timestamps. *)
Definition key_le {A : Type} (key : A → Z) (a b : A) : Prop := (key a ≤ key b)%Z.

Definition ts_le (a b : Reading) : Prop := key_le r_timestamp a b.

(** The measurements of one station agree on model and position, and two
    of them taken at the same time carry the same value. *)
Definition station_consistent (buf : list Measurement) : Prop :=
  ∀ m m', m ∈ buf → m' ∈ buf → public m = public m' →
    model m = model m' ∧ format_geo m = format_geo m' ∧
    (timestamp m = timestamp m' → value m = value m').

(** The buffer after the loop of lines 96 to 99, and the debug lines that
    the loop writes. *)
Definition collect (PING_MODEL : Z) (data : list StationData)
    (buf : list Measurement) : list Measurement :=
  fold_left
    (λ b d, if accepted PING_MODEL (measurement d)
            then set_add (measurement d) b else b)
    data buf.

Definition collect_log (PING_MODEL : Z) (data : list StationData) : list event :=
  concat ((λ d, if accepted PING_MODEL (measurement d)
                then [Log DEBUG "Adding data to buffer: "] else []) <$> data).

(** Kinds of outgoing calls. *)
Definition is_log (ev : event) : bool :=
  match ev with Log _ _ => true | _ => false end.

Definition is_store_add (ev : event) : bool :=
  match ev with IpfsAdd _ _ => true | _ => false end.

Definition is_db_write (ev : event) : bool :=
  match ev with DbAddData _ _ _ _ | DbUpdateStatus _ _ => true | _ => false end.

Definition is_pin (ev : event) : bool :=
  match ev with
  | TemporalLogin _ _ | TemporalAdd _ _ | PinataPinFile _ _ _ | PinataPinList => true
  | _ => false
  end.

Definition is_ledger (ev : event) : bool :=
  match ev with LedgerClient _ | RecordDatalog _ => true | _ => false end.

(** What may follow the record write in a flush cycle: log lines, pin
    calls, ledger calls and the status update. *)
Definition is_after_publish (ev : event) : bool :=
  match ev with
  | Log _ _ | TemporalLogin _ _ | TemporalAdd _ _ | PinataPinFile _ _ _
  | PinataPinList | LedgerClient _ | RecordDatalog _ | DbUpdateStatus _ _ => true
  | _ => false
  end.

(** The calls of a flush cycle before the content-store add, for the
    snapshot [s] written to the file [name], and up to the add. *)
Definition before_add (s name : string) : list event :=
  [Log DEBUG "About to publish collected data..."; Log DEBUG "Buffer is ";
   Log DEBUG "Payload before sorting: "; Log DEBUG "Payload sorted: ";
   TempFileCreate; Log DEBUG ("Created temp file: " +:+ name);
   TempFileWrite name s].

Definition publish_prefix (s ep name : string) : list event :=
  before_add s name ++ [IpfsAdd ep name].

(** The order of the calls [new] of one call of [feed], for the snapshot
    [s]: a content-store add that succeeds is followed at once by the write
    of the record, and nothing before it pins or calls the ledger; every pin
    or ledger call comes after such a write. *)
Definition flush_ordered (env : Env) (s : string) (new : list event) : Prop :=
  (∀ ep f h, IpfsAdd ep f ∈ new → ipfs_add env ep f = Ok h →
     ∃ pre post,
       new = pre ++ IpfsAdd ep f
                 :: DbAddData "not sent" h (now_record env) s :: post ∧
       Forall (λ ev, is_pin ev = false ∧ is_ledger ev = false) pre) ∧
  (∀ ev, ev ∈ new → is_pin ev || is_ledger ev = true →
     ∃ pre h post,
       new = pre ++ DbAddData "not sent" h (now_record env) s :: post ∧
       ev ∈ post ∧
       Forall (λ ev, is_pin ev = false ∧ is_ledger ev = false) pre).

(** A log line, or a step that writes the snapshot [s] to a temporary file. *)
Definition quiet (s : string) (ev : event) : Prop :=
  is_log ev = true ∨ ev = TempFileCreate ∨ ∃ name, ev = TempFileWrite name s.

(** What one turn of the frontier loop writes for the [i]-th item: the
    submission, then the receipt line or the warning. *)
Definition frontier_item_trace (measurement_str : Measurement → string)
    (fenv : FrontierEnv) (i : nat) (d : StationData) : list event :=
  let text := measurement_str (measurement d) in
  [FrontierRecord text;
   match frontier_record fenv i text with
   | Ok receipt =>
       Log INFO
         ("Frontier Datalog: Data sent to Robonomics datalog and included in block "
          +:+ receipt)
   | Raise e =>
       Log WARNING
         ("Frontier Datalog: Something went wrong during extrinsic submission to Robonomics: "
          +:+ e)
   end].

Fixpoint frontier_trace (measurement_str : Measurement → string)
    (fenv : FrontierEnv) (i : nat) (data : list StationData) : list event :=
  match data with
  | [] => []
  | d :: data' =>
      frontier_item_trace measurement_str fenv i d
        ++ frontier_trace measurement_str fenv (S i) data'
  end.

(** The texts submitted to the ledger, in order. *)
Definition submitted (tr : list event) : list string :=
  omap (λ ev, match ev with FrontierRecord text => Some text | _ => None end) tr.

(** A call that is neither the content-store add, nor a pin, nor a ledger
    call. *)
Definition calm (ev : event) : Prop :=
  is_store_add ev = false ∧ is_pin ev = false ∧ is_ledger ev = false.

(** ** Reference functions for the steps of a flush cycle *)

(** Whether [_pin_to_temporal] returns or raises, and the calls it makes. *)
Definition temporal_outcome (env : Env) (cfg : Config) (file : string) : result unit :=
  let username := datalog_temporal_username cfg in
  let password := datalog_temporal_password cfg in
  if truthy username && truthy password then
    match temporal_login env username password with
    | Raise e => Raise e
    | Ok token =>
        match temporal_add env file token with
        | Raise e => Raise e
        | Ok _ => Ok tt
        end
    end
  else Ok tt.

Definition temporal_trace (env : Env) (cfg : Config) (file : string) : list event :=
  let username := datalog_temporal_username cfg in
  let password := datalog_temporal_password cfg in
  if truthy username && truthy password then
    TemporalLogin username password ::
    match temporal_login env username password with
    | Raise _ => []
    | Ok token =>
        TemporalAdd file token ::
        match temporal_add env file token with
        | Ok status_code =>
            if decide (status_code = 200) then [Log INFO "File pinned to Temporal Cloud"]
            else []
        | Raise _ => []
        end
    end
  else [].

(** The calls that [_pin_to_pinata] makes. *)
Definition pinata_trace (env : Env) (cfg : Config) (file : string) : list event :=
  let api := datalog_pinata_api cfg in
  let secret := datalog_pinata_secret cfg in
  if truthy secret then
    Log INFO "Pinning file to Pinata" :: PinataPinFile api secret file ::
    match pinata_pin_file env api secret file with
    | Raise e => [Log WARNING ("Failed while pining file to Pinata. Error: " +:+ e)]
    | Ok _ =>
        PinataPinList ::
        match pinata_pin_list env with
        | Ok hash => [Log INFO ("File sent to pinata. Hash is " +:+ hash)]
        | Raise e => [Log WARNING ("Failed while pining file to Pinata. Error: " +:+ e)]
        end
    end
  else [].

(** Whether [to_datalog] returns or raises, the calls it makes, and the
    store it leaves. *)
Definition datalog_outcome (env : Env) (seed : string) : result unit :=
  match ledger_client env seed with
  | Raise e => Raise e
  | Ok _ => Ok tt
  end.

Definition datalog_trace (env : Env) (seed h : string) : list event :=
  Log INFO h :: LedgerClient seed ::
  match ledger_client env seed with
  | Raise _ => []
  | Ok _ =>
      RecordDatalog h ::
      match record_datalog env h with
      | Ok receipt =>
          [Log INFO ("Ipfs hash sent to Robonomics Parachain and included in block "
                     +:+ receipt);
           DbUpdateStatus "sent" h]
      | Raise e =>
          [Log WARNING
             ("Something went wrong during extrinsic submission to Robonomics: " +:+ e)]
      end
  end.

Definition datalog_store (env : Env) (seed h : string) (rows : list SubmissionRecord)
  : list SubmissionRecord :=
  match ledger_client env seed, record_datalog env h with
  | Ok _, Ok _ => db_update_status "sent" h rows
  | _, _ => rows
  end.

(** All measurement records of a payload, group after group. *)
Definition payload_records (d : list (string * Group)) : list Reading :=
  concat ((λ kv, g_measurements kv.2) <$> d).

(** More kinds of outgoing calls. *)
Definition is_record_write (ev : event) : bool :=
  match ev with DbAddData _ _ _ _ => true | _ => false end.

Definition is_ledger_record (ev : event) : bool :=
  match ev with RecordDatalog _ => true | _ => false end.

Definition is_pinata (ev : event) : bool :=
  match ev with PinataPinFile _ _ _ | PinataPinList => true | _ => false end.

(** A row of the store lives on: same content identifier, creation time and
    payload; its status is as before or has become ["sent"]. *)
Definition row_kept (r r' : SubmissionRecord) : Prop :=
  content_id r' = content_id r ∧ created_at r' = created_at r ∧
  payload_snapshot r' = payload_snapshot r ∧
  (status r' = status r ∨ status r' = "sent").

(** Every row of [rows] lives on in [rows'], at its place. *)
Definition store_grows (rows rows' : list SubmissionRecord) : Prop :=
  ∀ i r, rows !! i = Some r → ∃ r', rows' !! i = Some r' ∧ row_kept r r'.

(** How many calls of one kind a trace holds. *)
Definition count_calls (kind : event → bool) (tr : list event) : nat :=
  length (filter (λ ev, kind ev = true) tr).

(** The kinds of calls that a flush makes once at most. *)
Definition once_kind (kind : event → bool) : Prop :=
  kind = is_store_add ∨ kind = is_record_write ∨ kind = is_ledger_record.

(** * Properties *)

(** ** Ordered dictionaries *)

Section dict_facts.
Context {V : Type}.
Implicit Types (d : list (string * V)) (k : string) (v : V).

Lemma dict_get_set_eq k v d : dict_get k (dict_set k v d) = Some v.
Proof.
  induction d as [|[k' v'] d IH]; simpl.
  - by rewrite decide_True.
  - destruct (decide (k = k')) as [->|Hne]; simpl.
    + by rewrite decide_True.
    + by rewrite decide_False.
Qed.

Lemma dict_get_set_ne k k' v d :
  k ≠ k' → dict_get k' (dict_set k v d) = dict_get k' d.
Proof.
  intros Hne. induction d as [|[k0 v0] d IH]; simpl.
  - by rewrite decide_False.
  - destruct (decide (k = k0)) as [->|Hne0]; simpl.
    + rewrite !(decide_False (P := k' = k0)); [done|congruence..].
    + by rewrite IH.
Qed.

Lemma dict_get_None k d : dict_get k d = None ↔ k ∉ dict_keys d.
Proof.
  unfold dict_keys. induction d as [|[k' v'] d IH]; simpl.
  - split; [intros _; apply not_elem_of_nil | done].
  - rewrite not_elem_of_cons. destruct (decide (k = k')) as [->|]; [|tauto].
    split; [done|]. by intros [? _].
Qed.

Lemma dict_get_Some_elem k v d : dict_get k d = Some v → (k, v) ∈ d.
Proof.
  induction d as [|[k' v'] d IH]; simpl; [done|].
  destruct (decide (k = k')) as [->|]; intros H.
  - injection H as ->. apply elem_of_cons. by left.
  - apply elem_of_cons. right. auto.
Qed.

Lemma dict_elem_get k v d : NoDup (dict_keys d) → (k, v) ∈ d → dict_get k d = Some v.
Proof.
  unfold dict_keys. induction d as [|[k' v'] d IH]; simpl.
  - intros _ H. by apply elem_of_nil in H.
  - rewrite NoDup_cons. intros [Hk Hd] [H|H]%elem_of_cons.
    + injection H as -> ->. by rewrite decide_True.
    + rewrite decide_False; [auto|].
      intros ->. apply Hk. apply list_elem_of_fmap. by exists (k', v).
Qed.

(** Assigning to a new key appends it. *)
Lemma dict_set_fresh k v d : dict_get k d = None → dict_set k v d = d ++ [(k, v)].
Proof.
  induction d as [|[k' v'] d IH]; simpl; [done|].
  destruct (decide (k = k')); [done|]. intros H. by rewrite IH.
Qed.

(** Assigning to a present key leaves the keys and their order alone. *)
Lemma dict_keys_set_present k v d :
  is_Some (dict_get k d) → dict_keys (dict_set k v d) = dict_keys d.
Proof.
  unfold dict_keys. induction d as [|[k' v'] d IH]; simpl.
  - by intros [? ?].
  - destruct (decide (k = k')) as [->|]; simpl; [done|].
    intros H. f_equal. by apply IH.
Qed.

Lemma dict_keys_set_NoDup k v d :
  NoDup (dict_keys d) → NoDup (dict_keys (dict_set k v d)).
Proof.
  intros Hd. destruct (dict_get k d) as [v'|] eqn:Hg.
  - by rewrite dict_keys_set_present.
  - rewrite dict_set_fresh by done. unfold dict_keys in *.
    rewrite fmap_app. apply NoDup_app. split_and!; [done| |apply NoDup_singleton].
    intros x Hx ->%list_elem_of_singleton. by apply dict_get_None in Hg.
Qed.

(** Two dictionaries with the same keys in the same order and the same
    value under every key are the same. *)
Lemma dict_ext d1 d2 :
  NoDup (dict_keys d1) → dict_keys d1 = dict_keys d2 →
  (∀ k, dict_get k d1 = dict_get k d2) → d1 = d2.
Proof.
  unfold dict_keys. revert d2.
  induction d1 as [|[k1 v1] d1 IH]; intros [|[k2 v2] d2]; simpl; try done.
  rewrite NoDup_cons. intros [Hk Hd] [= <- Hkeys] Hget.
  pose proof (Hget k1) as H1. simpl in H1. rewrite !decide_True in H1 by done.
  injection H1 as <-. f_equal. apply IH; [done..|].
  intros k. specialize (Hget k). simpl in Hget.
  destruct (decide (k = k1)) as [->|]; [|done].
  transitivity (@None V); [|symmetry]; apply dict_get_None; unfold dict_keys;
    [done | exact (eq_ind _ (λ l, k1 ∉ l) Hk _ Hkeys)].
Qed.

(** Two dictionaries with the same value under every key hold the same
    items, in some order. *)
Lemma dict_perm d1 d2 :
  NoDup (dict_keys d1) → NoDup (dict_keys d2) →
  (∀ k, dict_get k d1 = dict_get k d2) → d1 ≡ₚ d2.
Proof.
  intros H1 H2 Hget. apply NoDup_Permutation.
  - by apply (NoDup_fmap_1 fst).
  - by apply (NoDup_fmap_1 fst).
  - intros [k v]. split; intros H.
    + apply dict_get_Some_elem. rewrite <- Hget. by apply dict_elem_get.
    + apply dict_get_Some_elem. rewrite Hget. by apply dict_elem_get.
Qed.
End dict_facts.

(** ** [sorted] *)

Section sorted_facts.
Context {A : Type} (key : A → Z).
Local Abbreviation R := (key_le key).

#[local] Instance key_le_trans : Transitive R.
Proof. intros a b c. unfold key_le. lia. Qed.

Lemma insert_by_perm x l : insert_by key x l ≡ₚ x :: l.
Proof.
  induction l as [|y l IH]; simpl; [done|].
  destruct (decide (key x ≤ key y)%Z); [done|].
  rewrite IH. apply Permutation_swap.
Qed.

Lemma sorted_perm l : sorted key l ≡ₚ l.
Proof.
  induction l as [|x l IH]; simpl; [done|].
  by rewrite insert_by_perm, IH.
Qed.

Lemma insert_by_HdRel a x l :
  R a x → HdRel R a l → HdRel R a (insert_by key x l).
Proof.
  intros Hax Hl. destruct l as [|y l]; simpl; [by constructor|].
  destruct (decide (key x ≤ key y)%Z); constructor; [done|].
  by inversion Hl.
Qed.

Lemma insert_by_Sorted x l : Sorted R l → Sorted R (insert_by key x l).
Proof.
  induction 1 as [|y l Hl IH Hhd]; simpl; [by repeat constructor|].
  destruct (decide (key x ≤ key y)%Z) as [Hle|Hgt].
  - constructor; [by constructor|]. by constructor.
  - constructor; [done|]. apply insert_by_HdRel; [|done]. unfold key_le. lia.
Qed.

Lemma sorted_Sorted l : Sorted R (sorted key l).
Proof.
  induction l as [|x l IH]; simpl; [constructor|]. by apply insert_by_Sorted.
Qed.

(** In a sorted list, neighbours are in order. *)
Lemma Sorted_consecutive l i a b :
  Sorted R l → l !! i = Some a → l !! S i = Some b → R a b.
Proof.
  intros Hl. revert i. induction Hl as [|y l Hl IH Hhd]; intros i; [done|].
  destruct i as [|i]; simpl.
  - intros [= ->] Hb. destruct l as [|z l]; [done|].
    simpl in Hb. injection Hb as ->. by inversion Hhd.
  - apply IH.
Qed.

(** When equal keys mean equal elements, the sorted list depends on the
    elements only, not on their order. *)
Lemma sorted_unique l1 l2 :
  l1 ≡ₚ l2 →
  (∀ x y, x ∈ l1 → y ∈ l1 → key x = key y → x = y) →
  sorted key l1 = sorted key l2.
Proof.
  intros Hp Hinj. apply (StronglySorted_unique_strong R).
  - intros x y Hx Hy Hxy Hyx. apply Hinj.
    + by rewrite <- (sorted_perm l1).
    + by rewrite Hp, <- (sorted_perm l2).
    + unfold key_le in *. lia.
  - apply Sorted_StronglySorted; [apply _|apply sorted_Sorted].
  - apply Sorted_StronglySorted; [apply _|apply sorted_Sorted].
  - by rewrite !sorted_perm.
Qed.

(** The keys of the sorted list depend on the elements only. *)
Lemma sorted_keys_unique l1 l2 :
  l1 ≡ₚ l2 → key <$> sorted key l1 = key <$> sorted key l2.
Proof.
  intros Hp. apply (Sorted_unique Z.le).
  - eapply Sorted_fmap; [|apply sorted_Sorted]. done.
  - eapply Sorted_fmap; [|apply sorted_Sorted]. done.
  - by rewrite !sorted_perm, Hp.
Qed.
End sorted_facts.

(** ** The snapshot builder *)

Lemma payload_step_get d m k :
  dict_get k (payload_step d m) =
    if decide (public m = k)
    then Some (match dict_get k d with
               | Some g => extend_group g [measurement_check m]
               | None => {| g_model := model m; g_geo := format_geo m;
                            g_measurements := [measurement_check m] |}
               end)
    else dict_get k d.
Proof.
  unfold payload_step. destruct (decide (public m = k)) as [<-|Hne].
  - destruct (dict_get (public m) d); by rewrite dict_get_set_eq.
  - destruct (dict_get (public m) d); by rewrite dict_get_set_ne.
Qed.

Lemma payload_step_NoDup d m :
  NoDup (dict_keys d) → NoDup (dict_keys (payload_step d m)).
Proof.
  intros Hd. unfold payload_step.
  destruct (dict_get (public m) d); by apply dict_keys_set_NoDup.
Qed.

Lemma fold_payload_step_NoDup buf d :
  NoDup (dict_keys d) → NoDup (dict_keys (fold_left payload_step buf d)).
Proof.
  revert d. induction buf as [|m buf IH]; intros d Hd; simpl; [done|].
  by apply IH, payload_step_NoDup.
Qed.

(** The group under a key after the loop over [buf], started from [d]. *)
Lemma fold_payload_step_get buf d k :
  dict_get k (fold_left payload_step buf d) =
    match dict_get k d with
    | Some g => Some (extend_group g (measurement_check <$> of_station k buf))
    | None => first_group (of_station k buf)
    end.
Proof.
  unfold of_station. revert d. induction buf as [|m buf IH]; intros d; simpl.
  - destruct (dict_get k d) as [[]|]; [|done].
    unfold extend_group; simpl. by rewrite app_nil_r.
  - rewrite IH, payload_step_get.
    destruct (decide (public m = k)) as [Hk|Hk].
    + rewrite filter_cons_True by done.
      destruct (dict_get k d) as [g|]; simpl; [|done].
      unfold extend_group; simpl. by rewrite <- app_assoc.
    + by rewrite filter_cons_False by done.
Qed.

(** On a dictionary, [_sort_payload] sorts every group where it stands. *)
Lemma _sort_payload_acc data acc :
  NoDup (dict_keys (acc ++ data)) →
  fold_left
    (λ ordered kv,
       dict_set kv.1
         {| g_model := g_model kv.2; g_geo := g_geo kv.2;
            g_measurements := sorted r_timestamp (g_measurements kv.2) |}
         ordered)
    data acc
  = acc ++ (prod_map id sort_group <$> data).
Proof.
  revert acc. induction data as [|[k g] data IH]; intros acc Hnd; simpl.
  - by rewrite app_nil_r.
  - rewrite dict_set_fresh.
    + rewrite IH; [by rewrite <- app_assoc|].
      unfold dict_keys in *. rewrite <- app_assoc. simpl.
      revert Hnd. rewrite !fmap_app. simpl. done.
    + apply dict_get_None. unfold dict_keys in *.
      rewrite fmap_app in Hnd. apply NoDup_app in Hnd as (_ & Hdisj & _).
      intros Hin. apply (Hdisj k Hin). simpl. apply elem_of_cons. by left.
Qed.

Lemma _sort_payload_fmap data :
  NoDup (dict_keys data) → _sort_payload data = prod_map id sort_group <$> data.
Proof. intros Hnd. unfold _sort_payload. by rewrite _sort_payload_acc. Qed.

Lemma dict_get_fmap {V W} (f : V → W) k (d : list (string * V)) :
  dict_get k (prod_map id f <$> d) = f <$> dict_get k d.
Proof.
  induction d as [|[k' v] d IH]; simpl; [done|].
  by destruct (decide (k = k')).
Qed.

Lemma dict_keys_fmap {V W} (f : V → W) (d : list (string * V)) :
  dict_keys (prod_map id f <$> d) = dict_keys d.
Proof.
  unfold dict_keys. rewrite <- list_fmap_compose. by apply list_fmap_ext; intros ? [].
Qed.

Lemma build_payload_fmap buf :
  build_payload buf = prod_map id sort_group <$> fold_left payload_step buf [].
Proof.
  unfold build_payload. apply _sort_payload_fmap, fold_payload_step_NoDup.
  apply NoDup_nil_2.
Qed.

Lemma build_payload_NoDup buf : NoDup (dict_keys (build_payload buf)).
Proof.
  rewrite build_payload_fmap, dict_keys_fmap.
  apply fold_payload_step_NoDup, NoDup_nil_2.
Qed.

(** The group of a station in the built payload. *)
Lemma build_payload_get buf k :
  dict_get k (build_payload buf) = sort_group <$> first_group (of_station k buf).
Proof. by rewrite build_payload_fmap, dict_get_fmap, fold_payload_step_get. Qed.

Lemma build_payload_keys buf k :
  k ∈ dict_keys (build_payload buf) ↔ ∃ m, m ∈ buf ∧ public m = k.
Proof.
  destruct (dict_get k (build_payload buf)) as [g|] eqn:Hg.
  - split.
    + intros _. rewrite build_payload_get in Hg.
      destruct (of_station k buf) as [|m0 ms] eqn:Hf; [done|].
      assert (m0 ∈ of_station k buf) as Hin by (rewrite Hf; apply elem_of_cons; by left).
      apply list_elem_of_filter in Hin as [? ?]. by exists m0.
    + intros _. destruct (decide (k ∈ dict_keys (build_payload buf))) as [|Hn]; [done|].
      apply dict_get_None in Hn. congruence.
  - split.
    + intros Hin. by apply dict_get_None in Hg.
    + intros (m & Hm & Hk). rewrite build_payload_get in Hg.
      assert (m ∈ of_station k buf) as Hin by (by apply list_elem_of_filter).
      destruct (of_station k buf); [by apply elem_of_nil in Hin|done].
Qed.

Lemma of_station_perm k b1 b2 : b1 ≡ₚ b2 → of_station k b1 ≡ₚ of_station k b2.
Proof. intros Hp. unfold of_station. by rewrite Hp. Qed.

Lemma build_payload_sorted buf k g :
  (k, g) ∈ build_payload buf → Sorted ts_le (g_measurements g).
Proof.
  rewrite build_payload_fmap. intros ([k' g'] & [= -> ->] & _)%list_elem_of_fmap.
  simpl. apply (sorted_Sorted r_timestamp).
Qed.

(** C4.  In the payload built from any buffer, the measurement sequence of
    every station group is in non-decreasing timestamp order (each entry is
    at most its successor), and every station key of the buffer is a group
    key exactly once: the group keys have no duplicates and are the station
    keys of the buffer. *)
Theorem snapshot_groups_sorted_keys_unique (buf : list Measurement) :
  (∀ k g i a b,
     (k, g) ∈ build_payload buf →
     g_measurements g !! i = Some a → g_measurements g !! S i = Some b →
     (r_timestamp a ≤ r_timestamp b)%Z) ∧
  NoDup (dict_keys (build_payload buf)) ∧
  (∀ k, k ∈ dict_keys (build_payload buf) ↔ ∃ m, m ∈ buf ∧ public m = k).
Proof.
  split_and!.
  - intros k g i a b Hin Ha Hb.
    eapply (Sorted_consecutive r_timestamp); [|exact Ha|exact Hb].
    eapply build_payload_sorted, Hin.
  - apply build_payload_NoDup.
  - apply build_payload_keys.
Qed.

(** C9.  When the buffer yields [m0] as the first measurement with station
    key [k], the payload holds exactly one group under [k]; its model and
    position are those of [m0] alone, and the later measurements with that
    key contribute only their measurement records, whatever their model and
    position. *)
Theorem group_model_geo_of_first_encountered
    (pre post : list Measurement) (m0 : Measurement) (k : string) :
  public m0 = k →
  (∀ m, m ∈ pre → public m ≠ k) →
  let g := {| g_model := model m0; g_geo := format_geo m0;
              g_measurements :=
                sorted r_timestamp
                  (measurement_check <$> (m0 :: filter (λ m, public m = k) post)) |} in
  dict_get k (build_payload (pre ++ m0 :: post)) = Some g ∧
  ∃ before after,
    build_payload (pre ++ m0 :: post) = before ++ (k, g) :: after ∧
    (k ∉ dict_keys before) ∧ (k ∉ dict_keys after).
Proof.
  intros Hk Hpre g.
  assert (dict_get k (build_payload (pre ++ m0 :: post)) = Some g) as Hg.
  { rewrite build_payload_get. unfold of_station.
    rewrite filter_app, filter_cons_True by done.
    replace (filter (λ m, public m = k) pre) with (@nil Measurement); [done|].
    symmetry. induction pre as [|m pre IH]; [done|].
    rewrite filter_cons_False.
    - apply IH. intros m' Hm'. apply Hpre, elem_of_cons. by right.
    - apply Hpre, elem_of_cons. by left. }
  split; [done|].
  apply dict_get_Some_elem, list_elem_of_split in Hg as (before & after & Heq).
  exists before, after. split; [done|].
  pose proof (build_payload_NoDup (pre ++ m0 :: post)) as Hnd.
  rewrite Heq in Hnd. unfold dict_keys in *.
  rewrite fmap_app, fmap_cons in Hnd. simpl in Hnd.
  apply NoDup_app in Hnd as (_ & Hdisj & [Hk' _]%NoDup_cons).
  split; [|done]. intros Hin. apply (Hdisj k Hin), elem_of_cons. by left.
Qed.

Lemma group_model_geo_of_first_encountered_witness :
  let m0 := mkMeasurement "X" 2 "1.5" "2.5" 100 7 in
  let m1 := mkMeasurement "X" 5 "8.0" "9.0" 50 9 in
  public m0 = "X" ∧
  (∀ m, m ∈ @nil Measurement → public m ≠ "X") ∧
  dict_get "X" (build_payload ([] ++ m0 :: [m1])) =
    Some {| g_model := 2; g_geo := "1.5,2.5";
            g_measurements := [mkReading 50 9; mkReading 100 7] |}.
Proof.
  intros m0 m1.
  pose (Hpre := λ (m : Measurement) (H : m ∈ @nil Measurement),
                  False_ind (public m ≠ "X") (proj1 (elem_of_nil m) H)).
  split; [reflexivity|]. split; [exact Hpre|].
  exact (proj1 (group_model_geo_of_first_encountered [] [m1] m0 "X" eq_refl Hpre)).
Defined.

Lemma first_group_perm_measurements ms1 ms2 g1 g2 :
  ms1 ≡ₚ ms2 →
  sort_group <$> first_group ms1 = Some g1 →
  sort_group <$> first_group ms2 = Some g2 →
  g_measurements g1 ≡ₚ g_measurements g2 ∧
  r_timestamp <$> g_measurements g1 = r_timestamp <$> g_measurements g2.
Proof.
  intros Hp H1 H2.
  destruct ms1 as [|a ms1]; [done|]. destruct ms2 as [|b ms2]; [done|].
  simpl in H1, H2. injection H1 as <-. injection H2 as <-.
  unfold sort_group. cbn [g_measurements]. split.
  - rewrite !sorted_perm.
    exact (fmap_Permutation measurement_check (a :: ms1) (b :: ms2) Hp).
  - apply sorted_keys_unique.
    exact (fmap_Permutation measurement_check (a :: ms1) (b :: ms2) Hp).
Qed.

Lemma first_group_consistent b ms1 ms2 k :
  station_consistent b →
  ms1 ≡ₚ ms2 →
  (∀ m, m ∈ ms1 → m ∈ b ∧ public m = k) →
  sort_group <$> first_group ms1 = sort_group <$> first_group ms2.
Proof.
  intros Hc Hp Hin.
  destruct ms1 as [|a ms1], ms2 as [|c ms2]; [done| | |].
  { by apply Permutation_nil_cons in Hp. }
  { symmetry in Hp. by apply Permutation_nil_cons in Hp. }
  assert (a ∈ a :: ms1) as Ha by (apply elem_of_cons; by left).
  assert (c ∈ a :: ms1) as Hc' by (rewrite Hp; apply elem_of_cons; by left).
  destruct (Hin a Ha) as [Hab Hak]. destruct (Hin c Hc') as [Hcb Hck].
  destruct (Hc a c Hab Hcb) as (Hmodel & Hgeo & _); [congruence|].
  unfold first_group, sort_group.
  cbn [fmap option_fmap option_map g_model g_geo g_measurements].
  rewrite Hmodel, Hgeo. do 2 f_equal.
  apply sorted_unique; [by rewrite Hp|].
  intros x y (mx & -> & Hmx)%list_elem_of_fmap (my & -> & Hmy)%list_elem_of_fmap Hts.
  destruct (Hin mx Hmx) as [Hxb Hxk]. destruct (Hin my Hmy) as [Hyb Hyk].
  destruct (Hc mx my Hxb Hyb) as (_ & _ & Hval); [congruence|].
  unfold measurement_check in *. simpl in Hts. by rewrite Hts, (Hval Hts).
Qed.

(** C3, as the code has it.  For two iteration orders of the same set of
    measurements the built payloads have the same station keys, and under
    each key the same measurement records up to the order of records with
    equal timestamps, sorted by timestamp.  When moreover the measurements
    of one station agree on model and position and equal timestamps mean
    equal values, the two payloads hold the very same groups; they are then
    the same dictionary, and the snapshot bytes are identical, as soon as
    the station keys come in the same order.  The order of the station keys
    itself follows the iteration order of the buffer and is not sorted. *)
Theorem snapshot_up_to_iteration_order (b1 b2 : list Measurement) :
  b1 ≡ₚ b2 →
  dict_keys (build_payload b1) ≡ₚ dict_keys (build_payload b2) ∧
  (∀ k g1 g2,
     dict_get k (build_payload b1) = Some g1 →
     dict_get k (build_payload b2) = Some g2 →
     g_measurements g1 ≡ₚ g_measurements g2 ∧
     Sorted ts_le (g_measurements g1) ∧ Sorted ts_le (g_measurements g2) ∧
     r_timestamp <$> g_measurements g1 = r_timestamp <$> g_measurements g2) ∧
  (station_consistent b1 →
     build_payload b1 ≡ₚ build_payload b2 ∧
     (dict_keys (build_payload b1) = dict_keys (build_payload b2) →
      snapshot b1 = snapshot b2)).
Proof.
  intros Hp. split_and!.
  - apply NoDup_Permutation; [apply build_payload_NoDup..|].
    intros k. rewrite !build_payload_keys. by setoid_rewrite Hp.
  - intros k g1 g2 H1 H2.
    pose proof (dict_get_Some_elem _ _ _ H1) as Hin1.
    pose proof (dict_get_Some_elem _ _ _ H2) as Hin2.
    rewrite build_payload_get in H1, H2.
    destruct (first_group_perm_measurements _ _ _ _ (of_station_perm k _ _ Hp) H1 H2)
      as [Hperm Hts].
    split_and!; [done| | |done]; by eapply build_payload_sorted.
  - intros Hc.
    assert (∀ k, dict_get k (build_payload b1) = dict_get k (build_payload b2)) as Hget.
    { intros k. rewrite !build_payload_get.
      apply (first_group_consistent b1 _ _ k); [done|by apply of_station_perm|].
      intros m [? ?]%list_elem_of_filter. done. }
    split.
    + apply dict_perm; [apply build_payload_NoDup..|done].
    + intros Hkeys. unfold snapshot. f_equal.
      apply dict_ext; [apply build_payload_NoDup|done..].
Qed.

Lemma snapshot_up_to_iteration_order_witness :
  let mA := mkMeasurement "X" 2 "1.5" "2.5" 100 7 in
  let mB := mkMeasurement "Y" 3 "0.0" "0.0" 10 1 in
  [mA; mB] ≡ₚ [mB; mA] ∧
  dict_keys (build_payload [mA; mB]) ≡ₚ dict_keys (build_payload [mB; mA]).
Proof.
  intros mA mB. split; [exact (Permutation_swap mB mA [])|].
  exact (proj1 (snapshot_up_to_iteration_order [mA; mB] [mB; mA]
                  (Permutation_swap mB mA []))).
Defined.

(** C3, as stated, fails: the same set of measurements, iterated in another
    order, gives other bytes.  The station keys come in the order in which
    the buffer yields them; the model and position of a group are those of
    the measurement met first; records with equal timestamps keep the order
    of iteration. *)
Lemma snapshot_depends_on_iteration_order :
  let mX := mkMeasurement "X" 2 "1.5" "2.5" 100 7 in
  let mY := mkMeasurement "Y" 3 "0.0" "0.0" 10 1 in
  let mX' := mkMeasurement "X" 5 "8.0" "9.0" 50 9 in
  let mX'' := mkMeasurement "X" 2 "1.5" "2.5" 100 8 in
  ([mX; mY] ≡ₚ [mY; mX] ∧ NoDup [mX; mY] ∧ snapshot [mX; mY] ≠ snapshot [mY; mX]) ∧
  ([mX; mX'] ≡ₚ [mX'; mX] ∧ NoDup [mX; mX'] ∧ snapshot [mX; mX'] ≠ snapshot [mX'; mX]) ∧
  ([mX; mX''] ≡ₚ [mX''; mX] ∧ NoDup [mX; mX''] ∧ snapshot [mX; mX''] ≠ snapshot [mX''; mX]).
Proof.
  intros mX mY mX' mX''.
  split_and!; try apply Permutation_swap;
    try (apply (bool_decide_unpack _); vm_compute; exact I);
    intros H; vm_compute in H; discriminate H.
Qed.

(** ** The feed loop *)

Lemma set_add_elem m x s : x ∈ set_add m s ↔ x = m ∨ x ∈ s.
Proof.
  unfold set_add. destruct (decide (m ∈ s)).
  - split; [by right|]. by intros [->|].
  - rewrite elem_of_app, list_elem_of_singleton. tauto.
Qed.

Ltac run_m :=
  repeat (unfold mbind, M_bind, mret, M_ret, logging, call, modify, get, try_except;
          cbn [fst snd]).

Lemma set_buffer_id self : set_buffer (buffer self) self = self.
Proof. by destruct self. Qed.

Lemma feed_collect_spec PING data self tr :
  feed_collect PING data (self, tr) =
    (Ok tt, (set_buffer (collect PING data (buffer self)) self,
             tr ++ collect_log PING data)).
Proof.
  unfold feed_collect, collect, collect_log. revert self tr.
  induction data as [|d data IH]; intros self tr.
  - cbn [for_each fold_left fmap list_fmap concat]. run_m.
    by rewrite set_buffer_id, app_nil_r.
  - cbn [for_each fold_left fmap list_fmap concat]. run_m.
    destruct (accepted PING (measurement d)); run_m.
    + rewrite IH. cbn. by rewrite <- app_assoc.
    + by rewrite IH.
Qed.

(** ** The steps of a flush cycle *)

Lemma _get_multihash_spec env buf ep self tr :
  _get_multihash env buf ep (self, tr) =
    let s := snapshot buf in
    let tr1 := tr ++ [Log DEBUG "Payload before sorting: ";
                      Log DEBUG "Payload sorted: "; TempFileCreate] in
    match tempfile_new env with
    | Raise e => (Raise e, (self, tr1))
    | Ok name =>
        let tr2 := tr1 ++ [Log DEBUG ("Created temp file: " +:+ name);
                           TempFileWrite name s] in
        match tempfile_write env name s with
        | Raise e => (Raise e, (self, tr2))
        | Ok _ =>
            let tr3 := tr2 ++ [IpfsAdd ep name] in
            match ipfs_add env ep name with
            | Raise e => (Raise e, (self, tr3))
            | Ok h =>
                (Ok (h, name),
                 (set_db (db_add_data "not sent" h (now_record env) s (db self)) self,
                  tr3 ++ [DbAddData "not sent" h (now_record env) s]))
            end
        end
    end.
Proof.
  unfold _get_multihash, snapshot, build_payload. run_m.
  destruct (tempfile_new env) as [name|e]; run_m; [|by rewrite <- ?app_assoc].
  destruct (tempfile_write env name _) as [[]|e]; run_m; [|by rewrite <- ?app_assoc].
  destruct (ipfs_add env ep name) as [h|e]; run_m; by rewrite <- ?app_assoc.
Qed.

(** A pin to Pinata returns, whatever Pinata does; it leaves the instance
    alone and only logs and calls Pinata. *)
Lemma _pin_to_pinata_spec env f cfg self tr :
  ∃ new, _pin_to_pinata env f cfg (self, tr) = (Ok tt, (self, tr ++ new)) ∧
         Forall (λ ev, is_log ev || is_pin ev = true) new.
Proof.
  unfold _pin_to_pinata.
  destruct (truthy (datalog_pinata_secret cfg)); run_m.
  - destruct (pinata_pin_file env _ _ f) as [[]|e]; run_m;
      [destruct (pinata_pin_list env) as [h|e]; run_m|];
      rewrite <- ?app_assoc; eexists; (split; [reflexivity|]);
      repeat constructor.
  - exists []. by rewrite app_nil_r.
Qed.

(** A pin to Temporal returns or raises as the two requests do; it leaves
    the instance alone and only logs and calls Temporal. *)
Lemma _pin_to_temporal_spec env f self tr :
  ∃ r new, _pin_to_temporal env f (self, tr) = (r, (self, tr ++ new)) ∧
           Forall (λ ev, is_log ev || is_pin ev = true) new.
Proof.
  unfold _pin_to_temporal. run_m.
  destruct (truthy (datalog_temporal_username (config self)) &&
            truthy (datalog_temporal_password (config self))); run_m.
  - destruct (temporal_login env _ _) as [token|e]; run_m;
      [destruct (temporal_add env f token) as [code|e]; run_m;
       [destruct (decide (code = 200)); run_m|]|];
      rewrite <- ?app_assoc; do 2 eexists;
      (split; [try reflexivity|]); try (repeat constructor).
    all: try (instantiate (1 := []); by rewrite app_nil_r).
    all: constructor.
  - exists (Ok tt), []. by rewrite app_nil_r.
Qed.

Lemma to_datalog_spec env h self tr :
  to_datalog env h (self, tr) =
    let self1 := set_buffer [] (set_last_time (now_reset env) self) in
    let seed := datalog_suri (config self) in
    let tr1 := tr ++ [Log INFO h; LedgerClient seed] in
    match ledger_client env seed with
    | Raise e => (Raise e, (self1, tr1))
    | Ok _ =>
        match record_datalog env h with
        | Ok receipt =>
            (Ok tt,
             (set_db (db_update_status "sent" h (db self)) self1,
              tr1 ++ [RecordDatalog h;
                      Log INFO ("Ipfs hash sent to Robonomics Parachain and included in block "
                                +:+ receipt);
                      DbUpdateStatus "sent" h]))
        | Raise e =>
            (Ok tt,
             (self1,
              tr1 ++ [RecordDatalog h;
                      Log WARNING
                        ("Something went wrong during extrinsic submission to Robonomics: "
                         +:+ e)]))
        end
    end.
Proof.
  unfold to_datalog. run_m.
  destruct (ledger_client env _) as [[]|e]; run_m; [|by rewrite <- ?app_assoc].
  destruct (record_datalog env h) as [receipt|e]; run_m; by rewrite <- ?app_assoc.
Qed.

Lemma before_add_quiet s name : Forall (quiet s) (before_add s name).
Proof.
  unfold before_add. repeat (constructor; [unfold quiet; eauto|]). constructor.
Qed.

Lemma quiet_calm s ev : quiet s ev → calm ev.
Proof. intros [H|[->|[name ->]]]; [by destruct ev|done..]. Qed.

Lemma quiet_snapshot s name c : quiet s (TempFileWrite name c) → c = s.
Proof. intros [H|[H|[name' H]]]; [done..|congruence]. Qed.

(** The five ways a flush can go. *)
Lemma feed_flush_cases env self tr :
  let buf := buffer self in
  let s := snapshot buf in
  let ep := ipfs_endpoint self in
  let out := feed_flush env (self, tr) in
  (¬ (now_check env - last_time self >= interval self)%Z ∧
   out = (Ok tt, (self, tr ++ [Log INFO "Still collecting measurements..."]))) ∨
  ((now_check env - last_time self >= interval self)%Z ∧ buf = [] ∧
   out = (Ok tt, (self, tr ++ [Log INFO "Nothing to publish"]))) ∨
  ((now_check env - last_time self >= interval self)%Z ∧ buf ≠ [] ∧
   ∃ e new,
     (tempfile_new env = Raise e ∨
      ∃ name, tempfile_new env = Ok name ∧ tempfile_write env name s = Raise e) ∧
     out = (Raise e, (self, tr ++ new)) ∧ Forall (quiet s) new) ∨
  ((now_check env - last_time self >= interval self)%Z ∧ buf ≠ [] ∧
   ∃ name e,
     tempfile_new env = Ok name ∧ tempfile_write env name s = Ok tt ∧
     ipfs_add env ep name = Raise e ∧
     out = (Raise e, (self, tr ++ publish_prefix s ep name))) ∨
  ((now_check env - last_time self >= interval self)%Z ∧ buf ≠ [] ∧
   ∃ name h rest,
     tempfile_new env = Ok name ∧ tempfile_write env name s = Ok tt ∧
     ipfs_add env ep name = Ok h ∧
     out.2.2 = tr ++ publish_prefix s ep name
                  ++ DbAddData "not sent" h (now_record env) s :: rest ∧
     Forall (λ ev, is_after_publish ev = true) rest ∧
     (buffer out.2.1 = buf ∨ buffer out.2.1 = [])).
Proof.
  intros buf s ep out. subst buf s ep out. unfold feed_flush. run_m.
  destruct (decide _) as [Hdue|Hdue]; [|left; done].
  right. destruct (buffer self) as [|m0 ms] eqn:Hbuf; [left; done|].
  right. rewrite <- Hbuf in *. run_m. rewrite _get_multihash_spec. cbn zeta.
  assert (buffer self ≠ []) as Hne by (by rewrite Hbuf). clear Hbuf.
  set (s := snapshot (buffer self)). set (ep := ipfs_endpoint self).
  destruct (tempfile_new env) as [name|e] eqn:Htmp.
  2:{ left. split_and!; [done..|]. exists e. eexists. split; [by left|].
      rewrite <- ?app_assoc. split; [reflexivity|].
      repeat (constructor; [unfold quiet; eauto|]). constructor. }
  destruct (tempfile_write env name s) as [[]|e] eqn:Hwr.
  2:{ left. split_and!; [done..|]. exists e. eexists. split; [right; eauto|].
      rewrite <- ?app_assoc. split; [reflexivity|]. apply (before_add_quiet s name). }
  right. destruct (ipfs_add env ep name) as [h|e] eqn:Hadd.
  2:{ left. split_and!; [done..|]. exists name, e.
      split_and!; [done..|]. by rewrite <- ?app_assoc. }
  right. split_and!; [done..|]. exists name, h. cbn [fst snd].
  assert (∀ l, Forall (λ ev, is_log ev || is_pin ev = true) l →
               Forall (λ ev, is_after_publish ev = true) l) as Hkind.
  { intros l Hl. eapply Forall_impl; [exact Hl|]. by intros []. }
  match goal with |- context [_pin_to_temporal env name (?s1, ?t1)] =>
    destruct (_pin_to_temporal_spec env name s1 t1) as (r1 & new1 & -> & Hnew1) end.
  destruct r1 as [[]|e1].
  2:{ exists new1. cbn [fst snd]. split_and!; [done..| |by apply Hkind|left; done].
      by rewrite <- ?app_assoc. }
  match goal with |- context [_pin_to_pinata env name ?c (?s1, ?t1)] =>
    destruct (_pin_to_pinata_spec env name c s1 t1) as (new2 & -> & Hnew2) end.
  rewrite to_datalog_spec. cbn zeta.
  destruct (ledger_client env _) as [[]|e3];
    [destruct (record_datalog env h) as [receipt|e4]|];
    cbn [fst snd]; eexists; do 3 (split; [done|]);
    (split; [rewrite <- ?app_assoc; unfold publish_prefix, before_add; cbn; reflexivity|]);
    (split; [|right; done]);
    rewrite !Forall_app; split_and!; auto; by repeat constructor.
Qed.

(** ** [DatalogFeeder.feed] *)

Lemma feed_unfold PING env data self tr :
  feed PING env data (self, tr) =
    if datalog_enable (config self)
    then feed_flush env
           (set_buffer (collect PING data (buffer self)) self,
            tr ++ Log INFO "DatalogFeeder:" :: collect_log PING data)
    else (Ok tt, (self, tr)).
Proof.
  unfold feed. run_m. destruct (datalog_enable (config self)); [|done].
  run_m. rewrite feed_collect_spec. by rewrite <- app_assoc.
Qed.

Lemma accepted_spec PING m :
  accepted PING m = true ↔ truthy (public m) = true ∧ model m ≠ PING.
Proof.
  unfold accepted. rewrite andb_true_iff, negb_true_iff, bool_decide_eq_false. done.
Qed.

Lemma collect_elem PING data buf m :
  m ∈ collect PING data buf ↔
  m ∈ buf ∨ ∃ d, d ∈ data ∧ measurement d = m ∧ accepted PING m = true.
Proof.
  unfold collect. revert buf. induction data as [|d data IH]; intros buf; simpl.
  - split; [by left|]. intros [?|(d & Hd & _)]; [done|]. by apply elem_of_nil in Hd.
  - rewrite IH. setoid_rewrite elem_of_cons.
    destruct (accepted PING (measurement d)) eqn:Hacc.
    + rewrite set_add_elem. split.
      * intros [[->|?]|(d' & ? & ? & ?)]; [right; exists d|by left|right; exists d']; auto.
      * intros [?|(d' & [->|?] & <- & ?)]; [left; by right|left; by left|right; exists d'; auto].
    + split.
      * intros [?|(d' & ? & ? & ?)]; [by left|right; exists d'; auto].
      * intros [?|(d' & [->|?] & <- & ?)]; [by left|congruence|right; exists d'; auto].
Qed.

Lemma collect_log_is_log PING data ev : ev ∈ collect_log PING data → is_log ev = true.
Proof.
  unfold collect_log. induction data as [|d data IH]; simpl.
  - by intros ?%elem_of_nil.
  - destruct (accepted PING (measurement d)); simpl; [|done].
    intros [->|?]%elem_of_cons; auto.
Qed.

(** C8.  A call of [feed] made while less than [interval] has elapsed since
    [last_time] returns normally and does nothing but log: no content-store
    call, no record written or updated, no pin, no ledger call; [last_time]
    and the store are as before, and the buffer holds what it held plus the
    measurements of this call that pass the filter (when the feeder is
    disabled, the buffer is as before). *)
Theorem feed_before_interval_only_collects
    (PING : Z) (env : Env) (data : list StationData)
    (self : DatalogFeeder) (tr : list event) :
  (now_check env - last_time self < interval self)%Z →
  let out := feed PING env data (self, tr) in
  out.1 = Ok tt ∧
  (∃ new, out.2.2 = tr ++ new ∧ Forall (λ ev, is_log ev = true) new) ∧
  last_time out.2.1 = last_time self ∧
  db out.2.1 = db self ∧
  (∀ m, m ∈ buffer out.2.1 ↔
        m ∈ buffer self ∨
        (datalog_enable (config self) = true ∧
         ∃ d, d ∈ data ∧ measurement d = m ∧
              truthy (public m) = true ∧ model m ≠ PING)).
Proof.
  intros Hearly out. subst out. rewrite feed_unfold.
  destruct (datalog_enable (config self)); cbn [fst snd].
  - destruct (feed_flush_cases env
                (set_buffer (collect PING data (buffer self)) self)
                (tr ++ Log INFO "DatalogFeeder:" :: collect_log PING data))
      as [[_ ->]|[[Hdue _]|[[Hdue _]|[[Hdue _]|[Hdue _]]]]];
      try (cbn in Hdue; lia).
    cbn [fst snd]. split_and!; [done| |done..|].
    + eexists. rewrite <- app_assoc. split; [reflexivity|].
      constructor; [done|]. apply Forall_app. split; [|by repeat constructor].
      apply Forall_forall. apply collect_log_is_log.
    + intros m. cbn. rewrite collect_elem. setoid_rewrite accepted_spec.
      split; [intros [?|?]; [by left|right; by split]|intros [?|[_ ?]]; [by left|by right]].
  - split_and!; [done| |done..|].
    + exists []. by rewrite app_nil_r.
    + intros m. split; [by left|]. by intros [?|[? _]].
Qed.

Lemma feed_before_interval_only_collects_witness :
  let cfg := mkConfig true 60 "" "" "" "" "//Alice" "" false in
  let env := mkEnv 30 31 32 (Ok "/tmp/f") (λ _ _, Ok tt) (λ _ _, Ok "Qm")
               (λ _ _, Ok "t") (λ _ _, Ok 200) (λ _ _ _, Ok tt) (Ok "Qm")
               (λ _, Ok tt) (λ _, Ok "r") in
  let m := mkMeasurement "X" 2 "1.5" "2.5" 100 7 in
  let self := init cfg 0 [] in
  (now_check env - last_time self < interval self)%Z ∧
  (feed 1 env [mkStationData m] (self, [])).1 = Ok tt.
Proof.
  intros cfg env m self.
  assert (now_check env - last_time self < interval self)%Z as Hearly
    by (vm_compute; reflexivity).
  split; [exact Hearly|].
  exact (proj1 (feed_before_interval_only_collects 1 env [mkStationData m]
                  self [] Hearly)).
Defined.

(** C5.  [to_datalog] first clears the buffer and resets [last_time], then
    builds the ledger client, then calls [record_datalog], once.  If that
    call returns, the rows of the store that carry exactly this content
    identifier get the status ["sent"]; if it raises, the exception is caught
    and logged as a warning, [to_datalog] returns normally and the store is
    left as it was.  Row by row: the status becomes ["sent"] if and only if
    the row carries this identifier and the call was made and returned;
    otherwise the row is untouched.  The buffer is cleared before the ledger
    is reached: it is empty also when building the client raises, in which
    case [record_datalog] is not called and the store is untouched. *)
Theorem to_datalog_marks_sent_iff_recorded
    (env : Env) (h : string) (self : DatalogFeeder) (tr : list event) :
  let out := to_datalog env h (self, tr) in
  let seed := datalog_suri (config self) in
  buffer out.2.1 = [] ∧
  last_time out.2.1 = now_reset env ∧
  match ledger_client env seed with
  | Raise e =>
      out.1 = Raise e ∧
      db out.2.1 = db self ∧
      out.2.2 = tr ++ [Log INFO h; LedgerClient seed]
  | Ok _ =>
      out.1 = Ok tt ∧
      match record_datalog env h with
      | Ok receipt =>
          db out.2.1 = db_update_status "sent" h (db self) ∧
          out.2.2 =
            tr ++ [Log INFO h; LedgerClient seed; RecordDatalog h;
                   Log INFO ("Ipfs hash sent to Robonomics Parachain and included in block "
                             +:+ receipt);
                   DbUpdateStatus "sent" h]
      | Raise e =>
          db out.2.1 = db self ∧
          out.2.2 =
            tr ++ [Log INFO h; LedgerClient seed; RecordDatalog h;
                   Log WARNING
                     ("Something went wrong during extrinsic submission to Robonomics: "
                      +:+ e)]
      end
  end ∧
  (∀ i row, db self !! i = Some row →
     ∃ row', db out.2.1 !! i = Some row' ∧
       content_id row' = content_id row ∧
       created_at row' = created_at row ∧
       payload_snapshot row' = payload_snapshot row ∧
       status row' =
         match ledger_client env seed, record_datalog env h with
         | Ok _, Ok _ => if decide (content_id row = h) then "sent" else status row
         | _, _ => status row
         end).
Proof.
  intros out seed. subst out seed.
  rewrite to_datalog_spec. cbn zeta.
  destruct (ledger_client env _) as [[]|e0]; cbn [fst snd].
  2:{ do 2 (split; [done|]). split; [done|].
      intros i row Hrow. exists row. done. }
  destruct (record_datalog env h) as [receipt|e]; cbn [fst snd].
  - do 2 (split; [done|]). split.
    + split; [done|]. split; [done|]. by rewrite <- app_assoc.
    + intros i row Hrow. cbn. unfold db_update_status.
      rewrite list_lookup_fmap, Hrow. cbn.
      eexists. split; [reflexivity|]. by destruct (decide (content_id row = h)).
  - do 2 (split; [done|]). split.
    + split; [done|]. split; [done|]. by rewrite <- app_assoc.
    + intros i row Hrow. exists row. done.
Qed.

(** C7, as the code has it.  When the content-store add raises, the
    exception leaves [feed]; no Submission Record is written, nothing is
    pinned and the ledger is not called; the store and [last_time] are as
    before and the measurements stay in the buffer. *)
Theorem failed_add_aborts_and_keeps_buffer
    (PING : Z) (env : Env) (data : list StationData)
    (self : DatalogFeeder) (tr : list event) (name e : string) :
  datalog_enable (config self) = true →
  (now_check env - last_time self >= interval self)%Z →
  collect PING data (buffer self) ≠ [] →
  tempfile_new env = Ok name →
  tempfile_write env name (snapshot (collect PING data (buffer self))) = Ok tt →
  ipfs_add env (ipfs_endpoint self) name = Raise e →
  let out := feed PING env data (self, tr) in
  out.1 = Raise e ∧
  (∃ new, out.2.2 = tr ++ new ∧
          Forall (λ ev, is_db_write ev = false ∧ is_pin ev = false ∧
                        is_ledger ev = false) new) ∧
  db out.2.1 = db self ∧
  last_time out.2.1 = last_time self ∧
  buffer out.2.1 = collect PING data (buffer self).
Proof.
  intros Hen Hdue Hne Htmp Hwr Hadd out. subst out. rewrite feed_unfold, Hen.
  destruct (feed_flush_cases env
              (set_buffer (collect PING data (buffer self)) self)
              (tr ++ Log INFO "DatalogFeeder:" :: collect_log PING data))
    as [[Hn _]|[(_ & Hb & _)|[(_ & _ & e' & new & [Ht|(name' & Ht & Hw)] & _)|
        [(_ & _ & name' & e' & Ht & Hw & Ha & ->)|
         (_ & _ & name' & h & rest & Ht & Hw & Ha & _)]]]];
    cbn [buffer set_buffer ipfs_endpoint] in *; try done; try congruence.
  assert (name' = name) as -> by congruence.
  assert (e' = e) as -> by congruence.
  cbn [fst snd]. split_and!; [done| |done..].
  eexists. rewrite <- app_assoc. split; [reflexivity|].
  constructor; [done|]. rewrite Forall_app. split; [|by repeat constructor].
  apply Forall_forall. intros ev Hev%collect_log_is_log. by destruct ev.
Qed.

Lemma failed_add_aborts_and_keeps_buffer_witness :
  let cfg := mkConfig true 60 "" "" "" "" "//Alice" "" false in
  let env := mkEnv 100 101 102 (Ok "/tmp/f") (λ _ _, Ok tt)
               (λ _ _, Raise "ConnectionError")
               (λ _ _, Ok "t") (λ _ _, Ok 200) (λ _ _ _, Ok tt) (Ok "Qm")
               (λ _, Ok tt) (λ _, Ok "r") in
  let m := mkMeasurement "X" 2 "1.5" "2.5" 100 7 in
  let data := [mkStationData m] in
  let self := init cfg 0 [] in
  datalog_enable (config self) = true ∧
  (now_check env - last_time self >= interval self)%Z ∧
  collect 1 data (buffer self) ≠ [] ∧
  tempfile_new env = Ok "/tmp/f" ∧
  tempfile_write env "/tmp/f" (snapshot (collect 1 data (buffer self))) = Ok tt ∧
  ipfs_add env (ipfs_endpoint self) "/tmp/f" = Raise "ConnectionError" ∧
  (feed 1 env data (self, [])).1 = Raise "ConnectionError" ∧
  buffer (feed 1 env data (self, [])).2.1 = [m].
Proof.
  intros cfg env m data self.
  assert (now_check env - last_time self >= interval self)%Z as Hdue
    by (vm_compute; discriminate).
  assert (collect 1 data (buffer self) ≠ []) as Hne
    by (vm_compute; discriminate).
  pose proof (failed_add_aborts_and_keeps_buffer 1 env data self []
                "/tmp/f" "ConnectionError" eq_refl Hdue Hne eq_refl eq_refl eq_refl)
    as (Hout & _ & _ & _ & Hbuf).
  split_and!; [reflexivity|exact Hdue|exact Hne|reflexivity..|exact Hout|exact Hbuf].
Defined.

(** C7, as stated, fails: after a failed add the measurement is still in
    the buffer, and the next call of [feed], with the content store back,
    publishes it. *)
Lemma failed_add_measurements_are_kept :
  let cfg := mkConfig true 60 "" "" "" "" "//Alice" "" false in
  let down := mkEnv 100 101 102 (Ok "/tmp/f") (λ _ _, Ok tt) (λ _ _, Raise "ConnectionError")
                (λ _ _, Ok "t") (λ _ _, Ok 200) (λ _ _ _, Ok tt) (Ok "Qm")
                (λ _, Ok tt) (λ _, Ok "r") in
  let up := mkEnv 110 111 112 (Ok "/tmp/g") (λ _ _, Ok tt) (λ _ _, Ok "Qm")
              (λ _ _, Ok "t") (λ _ _, Ok 200) (λ _ _ _, Ok tt) (Ok "Qm")
              (λ _, Ok tt) (λ _, Ok "r") in
  let m := mkMeasurement "X" 2 "1.5" "2.5" 100 7 in
  let first := feed 1 down [mkStationData m] (init cfg 0 [], []) in
  let second := feed 1 up [] first.2 in
  first.1 = Raise "ConnectionError" ∧
  buffer first.2.1 = [m] ∧
  DbAddData "not sent" "Qm" 111 (snapshot [m]) ∈ drop (length first.2.2) second.2.2.
Proof.
  intros cfg down up m first second.
  split_and!; [by vm_compute..|].
  apply (bool_decide_unpack _). by vm_compute.
Qed.

(** C1, where the code departs from it: with Temporal credentials set, an
    exception of the Temporal login request is not caught.  It leaves
    [feed]; Pinata is not tried, the ledger is not called, and the buffer
    is not cleared.  The record of the cycle stays ["not sent"]. *)
Lemma temporal_failure_escapes_feed :
  let cfg := mkConfig true 60 "user" "secret" "api" "key" "//Alice" "" false in
  let env := mkEnv 100 101 102 (Ok "/tmp/f") (λ _ _, Ok tt) (λ _ _, Ok "Qm")
               (λ _ _, Raise "ConnectionError") (λ _ _, Ok 200)
               (λ _ _ _, Ok tt) (Ok "Qm") (λ _, Ok tt) (λ _, Ok "r") in
  let m := mkMeasurement "X" 2 "1.5" "2.5" 100 7 in
  let out := feed 1 env [mkStationData m] (init cfg 0 [], []) in
  out.1 = Raise "ConnectionError" ∧
  TemporalLogin "user" "secret" ∈ out.2.2 ∧
  Forall (λ ev, ev ≠ PinataPinFile "api" "key" "/tmp/f" ∧ is_ledger ev = false) out.2.2 ∧
  buffer out.2.1 = [m] ∧
  db out.2.1 = [mkRecord "not sent" "Qm" 101 (snapshot [m])].
Proof.
  intros cfg env m out.
  split_and!; [by vm_compute|..|by vm_compute|by vm_compute].
  - apply (bool_decide_unpack _). by vm_compute.
  - apply (bool_decide_unpack _). by vm_compute.
Qed.

(** The Pinata pin, for comparison, catches whatever Pinata raises. *)
Lemma _pin_to_pinata_never_raises env f cfg σ :
  (_pin_to_pinata env f cfg σ).1 = Ok tt.
Proof.
  destruct σ as [self tr].
  by destruct (_pin_to_pinata_spec env f cfg self tr) as (new & -> & _).
Qed.

(** ** The order of the calls of a flush cycle *)

Section order.
Context (env : Env) (s : string).
Local Abbreviation ordered := (flush_ordered env s).

Lemma calm_not_pin l :
  Forall calm l → Forall (λ ev, is_pin ev = false ∧ is_ledger ev = false) l.
Proof. intros H. eapply Forall_impl; [exact H|]. by intros ev (_ & ? & ?). Qed.

Lemma ordered_calm new : Forall calm new → ordered new.
Proof.
  intros Hc. rewrite Forall_forall in Hc. split.
  - intros ep f h Hin _. by destruct (Hc _ Hin) as [? _].
  - intros ev Hin Hk. destruct (Hc _ Hin) as (_ & Hp & Hl).
    by rewrite Hp, Hl in Hk.
Qed.

Lemma ordered_failed_add Q ep name e :
  Forall calm Q → ipfs_add env ep name = Raise e → ordered (Q ++ [IpfsAdd ep name]).
Proof.
  intros Hc Hadd. rewrite Forall_forall in Hc. split.
  - intros ep' f h [Hin|Hin%list_elem_of_singleton]%elem_of_app Hok.
    + by destruct (Hc _ Hin) as [? _].
    + injection Hin as -> ->. congruence.
  - intros ev [Hin|Hin%list_elem_of_singleton]%elem_of_app Hk.
    + destruct (Hc _ Hin) as (_ & Hp & Hl). by rewrite Hp, Hl in Hk.
    + by subst ev.
Qed.

Lemma ordered_published Q ep name h rest :
  Forall calm Q → Forall (λ ev, is_after_publish ev = true) rest →
  ipfs_add env ep name = Ok h →
  ordered (Q ++ IpfsAdd ep name
             :: DbAddData "not sent" h (now_record env) s :: rest).
Proof.
  intros Hc Hrest Hadd. pose proof (calm_not_pin _ Hc) as Hq.
  rewrite Forall_forall in Hc, Hrest. split.
  - intros ep' f h' Hin Hok.
    apply elem_of_app in Hin as [Hin|Hin]; [by destruct (Hc _ Hin) as [? _]|].
    apply elem_of_cons in Hin as [Hin|Hin].
    + injection Hin as -> ->. assert (h' = h) as -> by congruence.
      by exists Q, rest.
    + apply elem_of_cons in Hin as [Hin|Hin]; [done|]. by apply Hrest in Hin.
  - intros ev Hin Hk.
    apply elem_of_app in Hin as [Hin|Hin].
    { destruct (Hc _ Hin) as (_ & Hp & Hl). by rewrite Hp, Hl in Hk. }
    apply elem_of_cons in Hin as [->|Hin]; [done|].
    apply elem_of_cons in Hin as [->|Hin]; [done|].
    exists (Q ++ [IpfsAdd ep name]), h, rest. split_and!; [|done|].
    + by rewrite <- app_assoc.
    + apply Forall_app. split; [done|]. by repeat constructor.
Qed.
End order.

Lemma collect_log_calm PING data : Forall calm (collect_log PING data).
Proof.
  apply Forall_forall. intros ev Hev%collect_log_is_log. by destruct ev.
Qed.

(** C2.  In every call of [feed]: a content-store add that succeeds is
    followed at once by the write of the Submission Record with status
    ["not sent"], the returned content identifier, the clock reading and the
    serialized payload, and no pin or ledger call comes before it; every pin
    or ledger call comes after such a write.  When [_get_multihash] returns,
    the store holds that record as its last row. *)
Theorem record_written_before_pin_and_ledger
    (PING : Z) (env : Env) (data : list StationData)
    (self : DatalogFeeder) (tr : list event) :
  let out := feed PING env data (self, tr) in
  let s := snapshot (collect PING data (buffer self)) in
  (∃ new, out.2.2 = tr ++ new ∧
     (∀ ep f h, IpfsAdd ep f ∈ new → ipfs_add env ep f = Ok h →
        ∃ pre post,
          new = pre ++ IpfsAdd ep f
                    :: DbAddData "not sent" h (now_record env) s :: post ∧
          Forall (λ ev, is_pin ev = false ∧ is_ledger ev = false) pre) ∧
     (∀ ev, ev ∈ new → is_pin ev || is_ledger ev = true →
        ∃ pre h post,
          new = pre ++ DbAddData "not sent" h (now_record env) s :: post ∧
          ev ∈ post ∧
          Forall (λ ev, is_pin ev = false ∧ is_ledger ev = false) pre)) ∧
  (∀ buf ep σ h name,
     (_get_multihash env buf ep σ).1 = Ok (h, name) →
     db (_get_multihash env buf ep σ).2.1 =
       db σ.1 ++ [mkRecord "not sent" h (now_record env) (snapshot buf)]).
Proof.
  intros out s. subst out. split.
  - rewrite feed_unfold. destruct (datalog_enable (config self)).
    2:{ exists []. cbn [fst snd]. rewrite app_nil_r. split; [done|].
        apply ordered_calm. constructor. }
    pose proof (collect_log_calm PING data) as Hlog.
    assert (Forall calm (Log INFO "DatalogFeeder:" :: collect_log PING data)) as Hhead.
    { by constructor. }
    assert (∀ name, Forall calm (before_add s name)) as Hbefore.
    { intros name. eapply Forall_impl; [apply before_add_quiet|]. apply quiet_calm. }
    destruct (feed_flush_cases env
                (set_buffer (collect PING data (buffer self)) self)
                (tr ++ Log INFO "DatalogFeeder:" :: collect_log PING data))
      as [[_ ->]|[(_ & _ & ->)|[(_ & _ & e & new & _ & -> & Hq)|
          [(_ & _ & name & e & _ & _ & Ha & ->)|
           (_ & _ & name & h & rest & _ & _ & Ha & -> & Hrest & _)]]]];
      cbn [fst snd buffer set_buffer ipfs_endpoint] in *; fold s; try fold s in Ha.
    + eexists. rewrite <- app_assoc. split; [reflexivity|].
      apply ordered_calm. apply Forall_app. split; [done|]. by repeat constructor.
    + eexists. rewrite <- app_assoc. split; [reflexivity|].
      apply ordered_calm. apply Forall_app. split; [done|]. by repeat constructor.
    + eexists. rewrite <- app_assoc. split; [reflexivity|].
      apply ordered_calm. apply Forall_app. split; [done|].
      eapply Forall_impl; [exact Hq|]. apply quiet_calm.
    + exists (((Log INFO "DatalogFeeder:" :: collect_log PING data) ++ before_add s name)
              ++ [IpfsAdd (ipfs_endpoint self) name]).
      split; [unfold publish_prefix; by rewrite <- !app_assoc|].
      eapply ordered_failed_add; [|exact Ha]. apply Forall_app. by split.
    + exists (((Log INFO "DatalogFeeder:" :: collect_log PING data) ++ before_add s name)
              ++ IpfsAdd (ipfs_endpoint self) name
                 :: DbAddData "not sent" h (now_record env) s :: rest).
      split; [unfold publish_prefix; by rewrite <- !app_assoc|].
      apply ordered_published; [|done..]. apply Forall_app. by split.
  - intros buf ep [self0 tr0] h name. rewrite _get_multihash_spec. cbn zeta.
    destruct (tempfile_new env) as [name'|e]; [|done].
    destruct (tempfile_write env name' (snapshot buf)) as [[]|e]; [|done].
    destruct (ipfs_add env ep name') as [h'|e]; [|done].
    cbn. by intros [= -> ->].
Qed.

(** ** What the buffer holds *)

Lemma feed_buffer_and_snapshots PING env data self tr :
  let out := feed PING env data (self, tr) in
  let buf := collect PING data (buffer self) in
  (buffer out.2.1 = [] ∨ buffer out.2.1 = buffer self ∨ buffer out.2.1 = buf) ∧
  ∃ new, out.2.2 = tr ++ new ∧
         ∀ name c, TempFileWrite name c ∈ new → c = snapshot buf.
Proof.
  intros out buf. subst out. rewrite feed_unfold.
  destruct (datalog_enable (config self)).
  2:{ split; [right; by left|]. exists []. rewrite app_nil_r. split; [done|].
      by intros name c ?%elem_of_nil. }
  assert (∀ name c l,
            TempFileWrite name c
              ∈ Log INFO "DatalogFeeder:" :: collect_log PING data ++ l →
            TempFileWrite name c ∈ l) as Hlog.
  { intros name c l [?|[Hin|?]%elem_of_app]%elem_of_cons; [done| |done].
    by apply collect_log_is_log in Hin. }
  assert (∀ name n c, TempFileWrite n c ∈ before_add (snapshot buf) name →
                      c = snapshot buf) as Hbefore.
  { intros name n c Hin. eapply quiet_snapshot.
    pose proof (before_add_quiet (snapshot buf) name) as Hq.
    rewrite Forall_forall in Hq. by apply Hq. }
  destruct (feed_flush_cases env
              (set_buffer (collect PING data (buffer self)) self)
              (tr ++ Log INFO "DatalogFeeder:" :: collect_log PING data))
    as [[_ ->]|[(_ & _ & ->)|[(_ & _ & e & new & _ & -> & Hq)|
        [(_ & _ & name & e & _ & _ & _ & ->)|
         (_ & _ & name & h & rest & _ & _ & _ & -> & Hrest & Hbuf)]]]];
    cbn [fst snd buffer set_buffer ipfs_endpoint] in *; fold buf.
  - split; [by do 2 right|]. eexists. rewrite <- app_assoc. split; [reflexivity|].
    intros n c Hin%Hlog. by apply list_elem_of_singleton in Hin.
  - split; [by do 2 right|]. eexists. rewrite <- app_assoc. split; [reflexivity|].
    intros n c Hin%Hlog. by apply list_elem_of_singleton in Hin.
  - split; [by do 2 right|]. eexists. rewrite <- app_assoc. split; [reflexivity|].
    intros n c Hin%Hlog. rewrite Forall_forall in Hq.
    by eapply quiet_snapshot, Hq.
  - split; [by do 2 right|]. eexists. rewrite <- app_assoc. split; [reflexivity|].
    intros n c Hin%Hlog. unfold publish_prefix in Hin.
    apply elem_of_app in Hin as [Hin|Hin]; [by eapply Hbefore|].
    by apply list_elem_of_singleton in Hin.
  - split; [destruct Hbuf as [Hb|Hb]; [do 2 right|left]; exact Hb|].
    eexists. rewrite <- app_assoc. split; [reflexivity|].
    intros n c Hin%Hlog. rewrite Forall_forall in Hrest.
    unfold publish_prefix in Hin. rewrite <- app_assoc in Hin.
    apply elem_of_app in Hin as [Hin|Hin]; [by eapply Hbefore|].
    apply elem_of_cons in Hin as [?|Hin]; [done|].
    apply elem_of_cons in Hin as [?|Hin]; [done|]. by apply Hrest in Hin.
Qed.

(** C6, as the code has it.  An enabled feeder runs the loop of [feed]
    and then the flush; the loop adds a measurement to the buffer if and only
    if its [public] is truthy and its model is not [PING_MODEL]; a disabled
    feeder adds nothing.  So, from [__init__] on and over any sequence of
    calls of [feed], whatever the outer world answers, every measurement in
    the buffer is public and not of the ping model, and so is every
    measurement of every snapshot that was ever handed over for
    publication. *)
Theorem buffer_holds_only_accepted (PING : Z) :
  (∀ env data self tr,
     feed PING env data (self, tr) =
       if datalog_enable (config self)
       then feed_flush env
              (feed_collect PING data (self, tr ++ [Log INFO "DatalogFeeder:"])).2
       else (Ok tt, (self, tr))) ∧
  (∀ data self tr,
     let out := feed_collect PING data (self, tr) in
     out.1 = Ok tt ∧
     ∀ m, m ∈ buffer out.2.1 ↔
          m ∈ buffer self ∨
          ∃ d, d ∈ data ∧ measurement d = m ∧
               truthy (public m) = true ∧ model m ≠ PING) ∧
  (∀ cfg now rows calls,
     let σ := run PING calls (init cfg now rows, []) in
     (∀ m, m ∈ buffer σ.1 → truthy (public m) = true ∧ model m ≠ PING) ∧
     (∀ name c, TempFileWrite name c ∈ σ.2 →
        ∃ buf, c = snapshot buf ∧
               ∀ m, m ∈ buf → truthy (public m) = true ∧ model m ≠ PING)).
Proof.
  split_and!.
  - intros env data self tr. rewrite feed_unfold, feed_collect_spec.
    cbn [fst snd]. by rewrite <- app_assoc.
  - intros data self tr out. subst out. rewrite feed_collect_spec. cbn [fst snd].
    split; [done|]. intros m. cbn. rewrite collect_elem.
    by setoid_rewrite accepted_spec.
  - intros cfg now rows calls.
    set (good := λ m : Measurement, truthy (public m) = true ∧ model m ≠ PING).
    set (inv := λ σ : DatalogFeeder * list event,
           (∀ m, m ∈ buffer σ.1 → good m) ∧
           (∀ name c, TempFileWrite name c ∈ σ.2 →
              ∃ buf, c = snapshot buf ∧ ∀ m, m ∈ buf → good m)).
    assert (∀ calls σ, inv σ → inv (run PING calls σ)) as Hrun.
    { clear calls. induction calls as [|[env data] calls IH]; intros [self tr] Hinv; [done|].
      cbn [run fst snd]. apply IH. unfold inv in Hinv |- *.
      destruct Hinv as [Hbuf Htr]. cbn [fst snd] in Hbuf, Htr.
      assert (∀ m, m ∈ collect PING data (buffer self) → good m) as Hcol.
      { intros m [?|(d & _ & _ & ?%accepted_spec)]%collect_elem; auto. }
      destruct (feed_buffer_and_snapshots PING env data self tr)
        as [Hb (new & Htr' & Hnew)].
      rewrite Htr'. split.
      - intros m. destruct Hb as [-> |[-> | ->]]; auto. by intros ?%elem_of_nil.
      - intros name c [Hin|Hin]%elem_of_app; [eauto|].
        exists (collect PING data (buffer self)). split; [eauto|done]. }
    apply Hrun. split; cbn.
    + by intros m ?%elem_of_nil.
    + by intros name c ?%elem_of_nil.
Qed.

(** C6, as stated, fails on a disabled feeder: [feed] does not reach the
    loop, so a measurement that is public and not of the ping model is not
    added. *)
Lemma disabled_feeder_adds_nothing :
  let cfg := mkConfig false 60 "" "" "" "" "//Alice" "" false in
  let env := mkEnv 100 101 102 (Ok "/tmp/f") (λ _ _, Ok tt) (λ _ _, Ok "Qm")
               (λ _ _, Ok "t") (λ _ _, Ok 200) (λ _ _ _, Ok tt) (Ok "Qm")
               (λ _, Ok tt) (λ _, Ok "r") in
  let m := mkMeasurement "X" 2 "1.5" "2.5" 100 7 in
  let out := feed 1 env [mkStationData m] (init cfg 0 [], []) in
  truthy (public m) = true ∧ model m ≠ 1 ∧
  out.1 = Ok tt ∧ buffer out.2.1 = [] ∧ m ∉ buffer out.2.1.
Proof.
  intros cfg env m out.
  split_and!; [by vm_compute..|]. vm_compute. by intros ?%elem_of_nil.
Qed.


(** ** [FrontierFeeder.feed] *)

Lemma frontier_loop_spec str fenv i data cfg tr :
  frontier_loop str fenv i data (cfg, tr) =
    (Ok tt, (cfg, tr ++ frontier_trace str fenv i data)).
Proof.
  revert i tr. induction data as [|d data IH]; intros i tr.
  - cbn [frontier_loop frontier_trace]. run_m. by rewrite app_nil_r.
  - cbn [frontier_loop frontier_trace]. unfold frontier_item_trace. run_m.
    destruct (frontier_record fenv i _) as [receipt|e]; run_m;
      rewrite IH; by rewrite <- !app_assoc.
Qed.

Lemma submitted_frontier_trace str fenv i data :
  submitted (frontier_trace str fenv i data) = (λ d, str (measurement d)) <$> data.
Proof.
  unfold submitted. revert i. induction data as [|d data IH]; intros i; [done|].
  cbn [frontier_trace frontier_item_trace app fmap list_fmap].
  destruct (frontier_record fenv i _); cbn [omap list_omap]; f_equal; apply IH.
Qed.

Lemma frontier_trace_item str fenv i j data d :
  data !! j = Some d →
  ∀ ev, ev ∈ frontier_item_trace str fenv (i + j) d →
        ev ∈ frontier_trace str fenv i data.
Proof.
  revert i j. induction data as [|d0 data IH]; intros i j Hj ev Hev; [done|].
  cbn [frontier_trace]. apply elem_of_app. destruct j as [|j].
  - injection Hj as ->. left. by rewrite Nat.add_0_r in Hev.
  - right. apply (IH (S i) j); [done|].
    by replace (S i + j)%nat with (i + S j)%nat by lia.
Qed.

(** C10, as the code has it.  When the frontier feeder is enabled, [feed]
    first builds the ledger account from [datalog.suri], outside the
    per-item handler: if that raises, the exception leaves [feed] and no
    item is submitted.  Once the account is built, [feed] returns normally
    for every input list and every behaviour of the ledger: it submits one
    record per item, in order and without batching, the text of the item's
    measurement; a submission that raises is logged as a warning and the
    loop goes on with the next item. *)
Theorem frontier_feed_submits_each_item
    (str : Measurement → string) (fenv : FrontierEnv)
    (data : list StationData) (cfg : Config) (tr : list event) :
  frontier_enable cfg = true →
  let out := frontier_feed str fenv data (cfg, tr) in
  match frontier_account fenv (datalog_suri cfg) with
  | Raise e =>
      out = (Raise e, (cfg, tr ++ [LedgerClient (datalog_suri cfg)]))
  | Ok _ =>
      out.1 = Ok tt ∧
      ∃ new,
        out.2.2 = tr ++ new ∧
        submitted new = (λ d, str (measurement d)) <$> data ∧
        (∀ i d e,
           data !! i = Some d →
           frontier_record fenv i (str (measurement d)) = Raise e →
           Log WARNING
             ("Frontier Datalog: Something went wrong during extrinsic submission to Robonomics: "
              +:+ e) ∈ new) ∧
        (∀ i d receipt,
           data !! i = Some d →
           frontier_record fenv i (str (measurement d)) = Ok receipt →
           Log INFO
             ("Frontier Datalog: Data sent to Robonomics datalog and included in block "
              +:+ receipt) ∈ new)
  end.
Proof.
  intros Hen out. subst out. unfold frontier_feed. run_m.
  rewrite Hen. run_m.
  destruct (frontier_account fenv (datalog_suri cfg)) as [[]|e0]; [|done].
  rewrite frontier_loop_spec. cbn [fst snd].
  split; [done|].
  exists (LedgerClient (datalog_suri cfg) :: frontier_trace str fenv 0 data).
  split_and!.
  - by rewrite <- app_assoc.
  - unfold submitted. cbn [omap list_omap]. apply submitted_frontier_trace.
  - intros i d e Hd He. apply elem_of_cons. right.
    eapply (frontier_trace_item str fenv 0 i); [done|].
    unfold frontier_item_trace. cbn [Nat.add]. rewrite He.
    apply elem_of_cons. right. apply elem_of_cons. by left.
  - intros i d receipt Hd Hr. apply elem_of_cons. right.
    eapply (frontier_trace_item str fenv 0 i); [done|].
    unfold frontier_item_trace. cbn [Nat.add]. rewrite Hr.
    apply elem_of_cons. right. apply elem_of_cons. by left.
Qed.

Lemma frontier_feed_submits_each_item_witness :
  let cfg := mkConfig false 60 "" "" "" "" "//Alice" "" true in
  let fenv := mkFrontierEnv (λ _, Ok tt)
                (λ i _, if decide (i = 0%nat) then Raise "timeout" else Ok "0xabc-1") in
  let d1 := mkStationData (mkMeasurement "X" 2 "1.5" "2.5" 100 7) in
  let d2 := mkStationData (mkMeasurement "Y" 3 "0.0" "0.0" 10 1) in
  frontier_enable cfg = true ∧
  (frontier_feed public fenv [d1; d2] (cfg, [])).1 = Ok tt ∧
  submitted (frontier_feed public fenv [d1; d2] (cfg, [])).2.2 = ["X"; "Y"].
Proof.
  intros cfg fenv d1 d2. split; [reflexivity|].
  pose proof (frontier_feed_submits_each_item public fenv [d1; d2] cfg [] eq_refl)
    as [Hout _].
  split; [exact Hout|reflexivity].
Defined.

(** C10, as stated, fails when the ledger account cannot be built: the
    exception of [Account(seed=...)] leaves an enabled [feed], and no item is
    submitted. *)
Lemma frontier_account_failure_stops_feed :
  let cfg := mkConfig false 60 "" "" "" "" "//Alice" "" true in
  let fenv := mkFrontierEnv (λ _, Raise "ValueError") (λ _ _, Ok "0xabc-1") in
  let d1 := mkStationData (mkMeasurement "X" 2 "1.5" "2.5" 100 7) in
  let d2 := mkStationData (mkMeasurement "Y" 3 "0.0" "0.0" 10 1) in
  let out := frontier_feed public fenv [d1; d2] (cfg, []) in
  frontier_enable cfg = true ∧
  out.1 = Raise "ValueError" ∧
  submitted out.2.2 = [] ∧
  out.2.2 = [LedgerClient "//Alice"].
Proof.
  intros cfg fenv d1 d2 out. by vm_compute.
Qed.

(** * Further properties *)

(** ** Sorting and the payload *)

Section sorted_more.
Context {A : Type} (key : A → Z).

Lemma insert_by_HdRel_id x l :
  HdRel (key_le key) x l → insert_by key x l = x :: l.
Proof.
  intros [|y l' Hxy]; simpl; [done|]. unfold key_le in Hxy. by rewrite decide_True.
Qed.

Lemma sorted_of_Sorted l : Sorted (key_le key) l → sorted key l = l.
Proof.
  induction 1 as [|x l Hl IH Hhd]; simpl; [done|].
  rewrite IH. by apply insert_by_HdRel_id.
Qed.

Lemma sorted_idemp l : sorted key (sorted key l) = sorted key l.
Proof. apply sorted_of_Sorted, sorted_Sorted. Qed.

Lemma insert_by_filter_key t x l :
  filter (λ y, key y = t) (insert_by key x l) =
  filter (λ y, key y = t) (x :: l).
Proof.
  induction l as [|y l IH]; simpl; [done|].
  destruct (decide (key x ≤ key y)%Z) as [Hle|Hgt]; [done|].
  rewrite (filter_cons _ y), IH, !(filter_cons _ x), !(filter_cons _ y).
  destruct (decide (key x = t)), (decide (key y = t)); try done. exfalso. lia.
Qed.

Lemma sorted_filter_key t l :
  filter (λ y, key y = t) (sorted key l) = filter (λ y, key y = t) l.
Proof.
  induction l as [|x l IH]; simpl; [done|].
  by rewrite insert_by_filter_key, !filter_cons, IH.
Qed.
End sorted_more.

Lemma sort_group_idemp g : sort_group (sort_group g) = sort_group g.
Proof. unfold sort_group. simpl. by rewrite sorted_idemp. Qed.

(** X1.  On a dictionary (no key twice), [_sort_payload] keeps every
    station key at its place; under each key the model and the position
    are untouched and the measurement records are the same records, put in
    non-decreasing timestamp order. *)
Theorem _sort_payload_keeps_groups (data : list (string * Group)) :
  NoDup (dict_keys data) →
  dict_keys (_sort_payload data) = dict_keys data ∧
  ∀ k g, dict_get k data = Some g →
    ∃ g', dict_get k (_sort_payload data) = Some g' ∧
          g_model g' = g_model g ∧ g_geo g' = g_geo g ∧
          g_measurements g' ≡ₚ g_measurements g ∧
          Sorted ts_le (g_measurements g').
Proof.
  intros Hnd. rewrite _sort_payload_fmap by done. split.
  - apply dict_keys_fmap.
  - intros k g Hg. rewrite dict_get_fmap, Hg. eexists. split; [reflexivity|].
    split_and!; [done..| |].
    + apply sorted_perm.
    + apply (sorted_Sorted r_timestamp).
Qed.

Lemma _sort_payload_keeps_groups_witness :
  let g := mkGroup 2 "1.5,2.5" [mkReading 100 7; mkReading 50 9] in
  NoDup (dict_keys [("X", g)]) ∧
  dict_keys (_sort_payload [("X", g)]) = dict_keys [("X", g)].
Proof.
  intros g.
  assert (NoDup (dict_keys [("X", g)])) as Hnd
    by (apply NoDup_singleton).
  split; [exact Hnd|].
  exact (proj1 (_sort_payload_keeps_groups [("X", g)] Hnd)).
Defined.

(** X2.  On a dictionary, sorting a sorted payload again changes nothing. *)
Theorem _sort_payload_idempotent (data : list (string * Group)) :
  NoDup (dict_keys data) →
  _sort_payload (_sort_payload data) = _sort_payload data.
Proof.
  intros Hnd. rewrite (_sort_payload_fmap data) by done.
  rewrite _sort_payload_fmap by (by rewrite dict_keys_fmap).
  rewrite <- list_fmap_compose. apply list_fmap_ext.
  intros i [k g] _. unfold prod_map. simpl. by rewrite sort_group_idemp.
Qed.

Lemma _sort_payload_idempotent_witness :
  let g := mkGroup 2 "1.5,2.5" [mkReading 100 7; mkReading 50 9] in
  NoDup (dict_keys [("X", g)]) ∧
  _sort_payload (_sort_payload [("X", g)]) = _sort_payload [("X", g)].
Proof.
  intros g.
  assert (NoDup (dict_keys [("X", g)])) as Hnd
    by (apply NoDup_singleton).
  split; [exact Hnd|].
  exact (_sort_payload_idempotent [("X", g)] Hnd).
Defined.

Lemma filter_timestamp_fmap t (l : list Measurement) :
  filter (λ r, r_timestamp r = t) (measurement_check <$> l) =
  measurement_check <$> filter (λ m, timestamp m = t) l.
Proof.
  induction l as [|m l IH]; [done|].
  rewrite fmap_cons, !filter_cons. cbn [measurement_check r_timestamp].
  destruct (decide (timestamp m = t)); by rewrite IH.
Qed.

(** X3.  The sort is stable: in the built payload, the records of a
    station that carry one and the same timestamp stand in the order in which
    the buffer yielded their measurements. *)
Theorem build_payload_stable (buf : list Measurement) (k : string) (g : Group) (t : Z) :
  dict_get k (build_payload buf) = Some g →
  filter (λ r, r_timestamp r = t) (g_measurements g) =
  measurement_check <$>
    filter (λ m, timestamp m = t) (filter (λ m, public m = k) buf).
Proof.
  rewrite build_payload_get. unfold of_station.
  destruct (filter (λ m, public m = k) buf) as [|m0 ms] eqn:Hf; [done|].
  intros [= <-]. unfold sort_group. cbn [g_measurements].
  rewrite sorted_filter_key. apply (filter_timestamp_fmap t (m0 :: ms)).
Qed.

Lemma build_payload_stable_witness :
  let m1 := mkMeasurement "X" 2 "1.5" "2.5" 100 7 in
  let m2 := mkMeasurement "X" 2 "1.5" "2.5" 100 8 in
  let g := mkGroup 2 "1.5,2.5" [mkReading 100 7; mkReading 100 8] in
  dict_get "X" (build_payload [m1; m2]) = Some g ∧
  filter (λ r, r_timestamp r = 100) (g_measurements g) =
  measurement_check <$>
    filter (λ m, timestamp m = 100) (filter (λ m, public m = "X") [m1; m2]).
Proof.
  intros m1 m2 g. split; [reflexivity|].
  exact (build_payload_stable [m1; m2] "X" g 100 eq_refl).
Defined.

Lemma payload_step_keys d m :
  dict_keys (payload_step d m) =
    if decide (public m ∈ dict_keys d) then dict_keys d
    else dict_keys d ++ [public m].
Proof.
  unfold payload_step. destruct (dict_get (public m) d) as [g|] eqn:Hg.
  - rewrite decide_True.
    + apply dict_keys_set_present. by rewrite Hg.
    + destruct (decide (public m ∈ dict_keys d)) as [|Hn]; [done|].
      apply dict_get_None in Hn. congruence.
  - rewrite decide_False by (by apply dict_get_None).
    rewrite dict_set_fresh by done. unfold dict_keys. by rewrite fmap_app.
Qed.

(** X4.  Station keys come in the order in which the buffer first yields
    them: an empty buffer gives no key, and a further measurement leaves the
    keys as they are when its station is known, and puts its key last when
    it is new. *)
Theorem build_payload_keys_first_seen (buf : list Measurement) (m : Measurement) :
  dict_keys (build_payload []) = [] ∧
  dict_keys (build_payload (buf ++ [m])) =
    if decide (public m ∈ dict_keys (build_payload buf))
    then dict_keys (build_payload buf)
    else dict_keys (build_payload buf) ++ [public m].
Proof.
  split; [done|].
  rewrite !build_payload_fmap, !dict_keys_fmap, fold_left_app. simpl.
  apply payload_step_keys.
Qed.

Lemma payload_records_set_present k g r d :
  dict_get k d = Some g →
  payload_records (dict_set k (extend_group g [r]) d) ≡ₚ r :: payload_records d.
Proof.
  unfold payload_records. induction d as [|[k' v'] d IH]; simpl; [done|].
  destruct (decide (k = k')) as [->|Hne].
  - intros [= ->]. simpl. rewrite <- app_assoc. simpl.
    by rewrite <- Permutation_middle.
  - intros Hg. simpl. rewrite (IH Hg). by rewrite <- Permutation_middle.
Qed.

Lemma payload_records_step d m :
  payload_records (payload_step d m) ≡ₚ measurement_check m :: payload_records d.
Proof.
  unfold payload_step. destruct (dict_get (public m) d) as [g|] eqn:Hg.
  - by apply (payload_records_set_present _ g).
  - rewrite dict_set_fresh by done. unfold payload_records.
    rewrite fmap_app, concat_app. simpl. rewrite ?app_nil_r.
    by rewrite <- Permutation_cons_append.
Qed.

Lemma payload_records_fold buf d :
  payload_records (fold_left payload_step buf d) ≡ₚ
  payload_records d ++ (measurement_check <$> buf).
Proof.
  revert d. induction buf as [|m buf IH]; intros d; simpl.
  - by rewrite app_nil_r.
  - rewrite IH, payload_records_step. by rewrite <- Permutation_middle.
Qed.

Lemma payload_records_sorted d :
  payload_records (prod_map id sort_group <$> d) ≡ₚ payload_records d.
Proof.
  unfold payload_records. induction d as [|[k g] d IH]; simpl; [done|].
  by rewrite IH, sorted_perm.
Qed.

(** X5.  The payload holds the measurement record of every measurement
    of the buffer once: none is lost and none comes twice. *)
Theorem build_payload_keeps_every_record (buf : list Measurement) :
  payload_records (build_payload buf) ≡ₚ measurement_check <$> buf.
Proof.
  by rewrite build_payload_fmap, payload_records_sorted, payload_records_fold.
Qed.

(** ** The steps of a flush cycle, in full *)

Lemma _pin_to_temporal_nf env f self tr :
  _pin_to_temporal env f (self, tr) =
    (temporal_outcome env (config self) f,
     (self, tr ++ temporal_trace env (config self) f)).
Proof.
  unfold _pin_to_temporal, temporal_outcome, temporal_trace. run_m.
  destruct (truthy _ && truthy _); run_m; [|by rewrite app_nil_r].
  destruct (temporal_login env _ _) as [token|e]; run_m; [|done].
  destruct (temporal_add env f token) as [code|e]; run_m;
    [|by rewrite <- app_assoc].
  destruct (decide (code = 200)); run_m; by rewrite <- ?app_assoc.
Qed.

Lemma _pin_to_pinata_nf env f cfg self tr :
  _pin_to_pinata env f cfg (self, tr) =
    (Ok tt, (self, tr ++ pinata_trace env cfg f)).
Proof.
  unfold _pin_to_pinata, pinata_trace.
  destruct (truthy (datalog_pinata_secret cfg)); run_m; [|by rewrite app_nil_r].
  destruct (pinata_pin_file env _ _ f) as [[]|e]; run_m;
    [destruct (pinata_pin_list env) as [h|e]; run_m|];
    by rewrite <- ?app_assoc.
Qed.

Lemma to_datalog_nf env h self tr :
  to_datalog env h (self, tr) =
    (datalog_outcome env (datalog_suri (config self)),
     (mkFeeder (config self) (now_reset env) [] (interval self)
        (ipfs_endpoint self)
        (datalog_store env (datalog_suri (config self)) h (db self)),
      tr ++ datalog_trace env (datalog_suri (config self)) h)).
Proof.
  rewrite to_datalog_spec. unfold datalog_outcome, datalog_store, datalog_trace.
  cbn zeta. destruct (ledger_client env _) as [[]|e]; [|done].
  destruct (record_datalog env h); by rewrite <- app_assoc.
Qed.

(** A flush whose content-store add succeeds. *)
Lemma feed_flush_published env self tr name h :
  (now_check env - last_time self >= interval self)%Z →
  buffer self ≠ [] →
  tempfile_new env = Ok name →
  tempfile_write env name (snapshot (buffer self)) = Ok tt →
  ipfs_add env (ipfs_endpoint self) name = Ok h →
  let s := snapshot (buffer self) in
  let rows := db self ++ [mkRecord "not sent" h (now_record env) s] in
  let tr1 := tr ++ publish_prefix s (ipfs_endpoint self) name
                ++ DbAddData "not sent" h (now_record env) s
                   :: temporal_trace env (config self) name in
  feed_flush env (self, tr) =
    match temporal_outcome env (config self) name with
    | Raise e => (Raise e, (set_db rows self, tr1))
    | Ok _ =>
        (datalog_outcome env (datalog_suri (config self)),
         (mkFeeder (config self) (now_reset env) [] (interval self)
            (ipfs_endpoint self)
            (datalog_store env (datalog_suri (config self)) h rows),
          tr1 ++ pinata_trace env (config self) name
              ++ datalog_trace env (datalog_suri (config self)) h))
    end.
Proof.
  intros Hdue Hne Hnew Hwr Hadd s rows tr1. subst s rows tr1.
  unfold feed_flush. run_m. rewrite decide_True by done.
  destruct (buffer self) as [|m0 ms] eqn:Hbuf; [done|]. rewrite <- Hbuf in *.
  run_m. rewrite _get_multihash_spec. cbn zeta. rewrite Hnew, Hwr, Hadd.
  cbn [fst snd]. rewrite _pin_to_temporal_nf. cbn [config set_db].
  destruct (temporal_outcome env (config self) name) as [[]|e].
  - rewrite _pin_to_pinata_nf, to_datalog_nf. cbn.
    unfold db_add_data, publish_prefix, before_add.
    do 2 f_equal. rewrite <- !app_assoc. cbn. by rewrite <- ?app_assoc.
  - unfold db_add_data, publish_prefix, before_add, set_db. cbn.
    do 2 f_equal. rewrite <- !app_assoc. cbn. by rewrite <- ?app_assoc.
Qed.

(** Splits a [Forall] over a trace into its symbolic parts, closing the
    explicit events. *)
Ltac split_Forall :=
  repeat match goal with
  | |- Forall _ (_ ++ _) => apply Forall_app; split
  | |- Forall _ (_ :: _) => constructor; [done|]
  | |- Forall _ [] => constructor
  | |- Forall _ (before_add _ _) => unfold before_add
  | |- Forall _ (publish_prefix _ _ _) => unfold publish_prefix
  end.

(** X6.  [_pin_to_pinata] returns normally whatever Pinata does and
    leaves the feeder as it is; it only logs and calls Pinata.  Without a
    Pinata secret it does nothing at all.  When either Pinata call raises,
    the last thing it does is log the warning with the text of the
    exception. *)
Theorem _pin_to_pinata_isolated
    (env : Env) (f : string) (cfg : Config) (self : DatalogFeeder)
    (tr : list event) :
  let out := _pin_to_pinata env f cfg (self, tr) in
  let api := datalog_pinata_api cfg in
  let secret := datalog_pinata_secret cfg in
  out.1 = Ok tt ∧ out.2.1 = self ∧
  ∃ new, out.2.2 = tr ++ new ∧
    Forall (λ ev, is_log ev || is_pinata ev = true) new ∧
    (truthy secret = false → new = []) ∧
    (∀ e, truthy secret = true →
          pinata_pin_file env api secret f = Raise e ∨
          (pinata_pin_file env api secret f = Ok tt ∧ pinata_pin_list env = Raise e) →
          last new =
            Some (Log WARNING ("Failed while pining file to Pinata. Error: " +:+ e))).
Proof.
  intros out api secret. subst out api secret. rewrite _pin_to_pinata_nf.
  cbn [fst snd]. split; [done|]. split; [done|].
  exists (pinata_trace env cfg f). split; [done|]. unfold pinata_trace.
  destruct (truthy (datalog_pinata_secret cfg)).
  - split_and!; [|done|].
    + destruct (pinata_pin_file env _ _ f) as [[]|e];
        [destruct (pinata_pin_list env)|]; by repeat constructor.
    + intros e _ [He|[He1 He2]].
      * by rewrite He.
      * by rewrite He1, He2.
  - split_and!; [constructor|done|done].
Qed.

(** X7.  [_pin_to_temporal] leaves the feeder as it is.  Without a
    username or without a password it does nothing.  With both, an exception
    of the login request or of the add request is not caught: it leaves the
    function after the calls made so far.  When both requests return, the
    function returns; a status code other than 200 is passed over without a
    log line. *)
Theorem _pin_to_temporal_behaviour
    (env : Env) (f : string) (self : DatalogFeeder) (tr : list event) :
  let out := _pin_to_temporal env f (self, tr) in
  let u := datalog_temporal_username (config self) in
  let p := datalog_temporal_password (config self) in
  out.2.1 = self ∧
  (truthy u && truthy p = false → out = (Ok tt, (self, tr))) ∧
  (truthy u && truthy p = true →
     (∀ e, temporal_login env u p = Raise e →
           out = (Raise e, (self, tr ++ [TemporalLogin u p]))) ∧
     (∀ token e, temporal_login env u p = Ok token →
           temporal_add env f token = Raise e →
           out = (Raise e, (self, tr ++ [TemporalLogin u p; TemporalAdd f token]))) ∧
     (∀ token code, temporal_login env u p = Ok token →
           temporal_add env f token = Ok code →
           out = (Ok tt,
                  (self, tr ++ [TemporalLogin u p; TemporalAdd f token]
                            ++ if decide (code = 200)
                               then [Log INFO "File pinned to Temporal Cloud"]
                               else [])))).
Proof.
  intros out u p. subst out u p. rewrite _pin_to_temporal_nf.
  unfold temporal_outcome, temporal_trace. split; [done|].
  destruct (truthy _ && truthy _).
  - split; [done|]. intros _. split_and!.
    + by intros e ->.
    + by intros token e -> ->.
    + by intros token code -> ->.
  - split; [|done]. intros _. by rewrite app_nil_r.
Qed.

Lemma _pin_to_temporal_result env f self tr :
  (_pin_to_temporal env f (self, tr)).1 = temporal_outcome env (config self) f.
Proof. by rewrite _pin_to_temporal_nf. Qed.

Lemma temporal_trace_kinds env cfg f :
  Forall (λ ev, is_log ev || is_pin ev = true ∧ is_pinata ev = false)
    (temporal_trace env cfg f).
Proof.
  unfold temporal_trace. destruct (truthy _ && truthy _); [|constructor].
  destruct (temporal_login env _ _) as [token|e]; [|by repeat constructor].
  destruct (temporal_add env f token) as [code|e]; [|by repeat constructor].
  destruct (decide (code = 200)); by repeat constructor.
Qed.

Lemma pinata_trace_kinds env cfg f :
  Forall (λ ev, is_log ev || is_pin ev = true) (pinata_trace env cfg f).
Proof.
  unfold pinata_trace. destruct (truthy _); [|constructor].
  destruct (pinata_pin_file env _ _ f) as [[]|e];
    [destruct (pinata_pin_list env)|]; by repeat constructor.
Qed.

(** The state in which [feed] starts its flush. *)
Lemma feed_enabled PING env data self tr :
  datalog_enable (config self) = true →
  feed PING env data (self, tr) =
    feed_flush env
      (set_buffer (collect PING data (buffer self)) self,
       tr ++ Log INFO "DatalogFeeder:" :: collect_log PING data).
Proof. intros Hen. by rewrite feed_unfold, Hen. Qed.

(** X8.  A flush cycle that runs to its end.  When the feeder is enabled,
    the interval has elapsed, the buffer is not empty, the snapshot is
    written and added to the content store, the Temporal pin returns and
    the ledger client is built, then, whatever Pinata and [record_datalog]
    do: [feed] returns normally, [record_datalog] is called with the content
    identifier, the buffer is cleared, [last_time] is the clock reading
    taken in [to_datalog], and the store has gained the record of this
    cycle, with status ["sent"] if the ledger call returned and ["not sent"]
    if it raised. *)
Theorem feed_completes_cycle
    (PING : Z) (env : Env) (data : list StationData)
    (self : DatalogFeeder) (tr : list event) (name h : string) :
  datalog_enable (config self) = true →
  (now_check env - last_time self >= interval self)%Z →
  collect PING data (buffer self) ≠ [] →
  tempfile_new env = Ok name →
  tempfile_write env name (snapshot (collect PING data (buffer self))) = Ok tt →
  ipfs_add env (ipfs_endpoint self) name = Ok h →
  (_pin_to_temporal env name (self, [])).1 = Ok tt →
  ledger_client env (datalog_suri (config self)) = Ok tt →
  let out := feed PING env data (self, tr) in
  let s := snapshot (collect PING data (buffer self)) in
  out.1 = Ok tt ∧
  buffer out.2.1 = [] ∧
  last_time out.2.1 = now_reset env ∧
  (∃ new, out.2.2 = tr ++ new ∧ RecordDatalog h ∈ new) ∧
  db out.2.1 =
    match record_datalog env h with
    | Ok _ =>
        db_update_status "sent" h
          (db self ++ [mkRecord "not sent" h (now_record env) s])
    | Raise _ => db self ++ [mkRecord "not sent" h (now_record env) s]
    end ∧
  mkRecord (match record_datalog env h with Ok _ => "sent" | Raise _ => "not sent" end)
           h (now_record env) s ∈ db out.2.1.
Proof.
  intros Hen Hdue Hne Hnew Hwr Hadd Htemp Hclient out s. subst out s.
  rewrite _pin_to_temporal_result in Htemp.
  rewrite feed_enabled by done.
  rewrite (feed_flush_published env _ _ name h) by done.
  cbn [config set_buffer buffer db ipfs_endpoint interval].
  rewrite Htemp. unfold datalog_outcome, datalog_store, datalog_trace.
  rewrite Hclient. cbn [fst snd buffer last_time db].
  split_and!; [done..| | |].
  - eexists. rewrite <- !app_assoc. split; [reflexivity|].
    rewrite !elem_of_app. do 3 right.
    rewrite !elem_of_cons. auto.
  - by destruct (record_datalog env h).
  - unfold db_update_status.
    destruct (record_datalog env h).
    + rewrite fmap_app. apply elem_of_app. right. cbn.
      rewrite decide_True by done. apply list_elem_of_singleton. done.
    + apply elem_of_app. right. by apply list_elem_of_singleton.
Qed.

Lemma feed_completes_cycle_witness :
  let cfg := mkConfig true 60 "" "" "api" "key" "//Alice" "" false in
  let env := mkEnv 100 101 102 (Ok "/tmp/f") (λ _ _, Ok tt) (λ _ _, Ok "Qm")
               (λ _ _, Ok "t") (λ _ _, Ok 200) (λ _ _ _, Raise "pinata down")
               (Ok "Qm") (λ _, Ok tt) (λ _, Ok "0xabc-1") in
  let m := mkMeasurement "X" 2 "1.5" "2.5" 100 7 in
  let data := [mkStationData m] in
  let self := init cfg 0 [] in
  datalog_enable (config self) = true ∧
  (now_check env - last_time self >= interval self)%Z ∧
  collect 1 data (buffer self) ≠ [] ∧
  tempfile_new env = Ok "/tmp/f" ∧
  tempfile_write env "/tmp/f" (snapshot (collect 1 data (buffer self))) = Ok tt ∧
  ipfs_add env (ipfs_endpoint self) "/tmp/f" = Ok "Qm" ∧
  (_pin_to_temporal env "/tmp/f" (self, [])).1 = Ok tt ∧
  ledger_client env (datalog_suri (config self)) = Ok tt ∧
  (feed 1 env data (self, [])).1 = Ok tt ∧
  db (feed 1 env data (self, [])).2.1 = [mkRecord "sent" "Qm" 101 (snapshot [m])].
Proof.
  intros cfg env m data self.
  assert (now_check env - last_time self >= interval self)%Z as Hdue
    by (vm_compute; discriminate).
  assert (collect 1 data (buffer self) ≠ []) as Hne
    by (vm_compute; discriminate).
  pose proof (feed_completes_cycle 1 env data self [] "/tmp/f" "Qm"
                eq_refl Hdue Hne eq_refl eq_refl eq_refl eq_refl eq_refl)
    as (Hout & _ & _ & _ & Hdb & _).
  split_and!; [reflexivity|exact Hdue|exact Hne|reflexivity..|exact Hout|exact Hdb].
Defined.

(** X9.  A flush cycle cut short by Temporal.  Under the same conditions,
    when the Temporal pin raises, the exception leaves [feed] after the
    record of the cycle was written: the store has gained that record with
    status ["not sent"], Pinata and the ledger are not called, and the buffer
    and [last_time] are as they were before the flush, so that the next call
    of [feed] finds the interval elapsed and the same measurements
    buffered. *)
Theorem feed_aborted_by_temporal
    (PING : Z) (env : Env) (data : list StationData)
    (self : DatalogFeeder) (tr : list event) (name h e : string) :
  datalog_enable (config self) = true →
  (now_check env - last_time self >= interval self)%Z →
  collect PING data (buffer self) ≠ [] →
  tempfile_new env = Ok name →
  tempfile_write env name (snapshot (collect PING data (buffer self))) = Ok tt →
  ipfs_add env (ipfs_endpoint self) name = Ok h →
  (_pin_to_temporal env name (self, [])).1 = Raise e →
  let out := feed PING env data (self, tr) in
  let s := snapshot (collect PING data (buffer self)) in
  out.1 = Raise e ∧
  buffer out.2.1 = collect PING data (buffer self) ∧
  last_time out.2.1 = last_time self ∧
  db out.2.1 = db self ++ [mkRecord "not sent" h (now_record env) s] ∧
  ∃ new, out.2.2 = tr ++ new ∧
         Forall (λ ev, is_pinata ev = false ∧ is_ledger ev = false) new.
Proof.
  intros Hen Hdue Hne Hnew Hwr Hadd Htemp out s. subst out s.
  rewrite _pin_to_temporal_result in Htemp.
  rewrite feed_enabled by done.
  rewrite (feed_flush_published env _ _ name h) by done.
  cbn [config set_buffer buffer db ipfs_endpoint interval].
  rewrite Htemp. cbn [fst snd buffer last_time db set_db].
  split_and!; [done..|].
  eexists. rewrite <- !app_assoc. split; [reflexivity|].
  split_Forall.
  - apply Forall_forall. intros ev Hev%collect_log_is_log. by destruct ev.
  - eapply Forall_impl; [apply temporal_trace_kinds|].
    intros ev [Hk Hp]. split; [done|]. by destruct ev.
Qed.

Lemma feed_aborted_by_temporal_witness :
  let cfg := mkConfig true 60 "user" "secret" "api" "key" "//Alice" "" false in
  let env := mkEnv 100 101 102 (Ok "/tmp/f") (λ _ _, Ok tt) (λ _ _, Ok "Qm")
               (λ _ _, Raise "ConnectionError") (λ _ _, Ok 200) (λ _ _ _, Ok tt)
               (Ok "Qm") (λ _, Ok tt) (λ _, Ok "0xabc-1") in
  let m := mkMeasurement "X" 2 "1.5" "2.5" 100 7 in
  let data := [mkStationData m] in
  let self := init cfg 0 [] in
  datalog_enable (config self) = true ∧
  (now_check env - last_time self >= interval self)%Z ∧
  collect 1 data (buffer self) ≠ [] ∧
  tempfile_new env = Ok "/tmp/f" ∧
  tempfile_write env "/tmp/f" (snapshot (collect 1 data (buffer self))) = Ok tt ∧
  ipfs_add env (ipfs_endpoint self) "/tmp/f" = Ok "Qm" ∧
  (_pin_to_temporal env "/tmp/f" (self, [])).1 = Raise "ConnectionError" ∧
  (feed 1 env data (self, [])).1 = Raise "ConnectionError" ∧
  buffer (feed 1 env data (self, [])).2.1 = [m].
Proof.
  intros cfg env m data self.
  assert (now_check env - last_time self >= interval self)%Z as Hdue
    by (vm_compute; discriminate).
  assert (collect 1 data (buffer self) ≠ []) as Hne
    by (vm_compute; discriminate).
  pose proof (feed_aborted_by_temporal 1 env data self [] "/tmp/f" "Qm"
                "ConnectionError" eq_refl Hdue Hne eq_refl eq_refl eq_refl eq_refl)
    as (Hout & Hbuf & _).
  split_and!; [reflexivity|exact Hdue|exact Hne|reflexivity..|exact Hout|exact Hbuf].
Defined.

(** X10.  When the interval has elapsed but there is nothing to publish
    (the buffer is still empty after the measurements of this call were
    filtered), [feed] only logs: no file, no content-store call, no record;
    [last_time] is not reset, so the next call finds the interval elapsed
    again. *)
Theorem feed_nothing_to_publish
    (PING : Z) (env : Env) (data : list StationData)
    (self : DatalogFeeder) (tr : list event) :
  datalog_enable (config self) = true →
  (now_check env - last_time self >= interval self)%Z →
  collect PING data (buffer self) = [] →
  let out := feed PING env data (self, tr) in
  out.1 = Ok tt ∧
  buffer out.2.1 = [] ∧
  last_time out.2.1 = last_time self ∧
  db out.2.1 = db self ∧
  ∃ new, out.2.2 = tr ++ new ∧ Forall (λ ev, is_log ev = true) new ∧
         last new = Some (Log INFO "Nothing to publish").
Proof.
  intros Hen Hdue Hempty out. subst out. rewrite feed_enabled by done.
  destruct (feed_flush_cases env
              (set_buffer (collect PING data (buffer self)) self)
              (tr ++ Log INFO "DatalogFeeder:" :: collect_log PING data))
    as [[Hn _]|[(_ & _ & ->)|[(_ & Hne & _)|[(_ & Hne & _)|(_ & Hne & _)]]]];
    cbn [buffer set_buffer last_time interval] in *; try done.
  cbn [fst snd buffer set_buffer last_time db]. split_and!; [done..|].
  eexists. rewrite <- app_assoc. split; [reflexivity|]. split.
  - split_Forall. apply Forall_forall, collect_log_is_log.
  - apply last_snoc.
Qed.

Lemma feed_nothing_to_publish_witness :
  let cfg := mkConfig true 60 "" "" "" "" "//Alice" "" false in
  let env := mkEnv 100 101 102 (Ok "/tmp/f") (λ _ _, Ok tt) (λ _ _, Ok "Qm")
               (λ _ _, Ok "t") (λ _ _, Ok 200) (λ _ _ _, Ok tt) (Ok "Qm")
               (λ _, Ok tt) (λ _, Ok "r") in
  let ping := mkMeasurement "X" 1 "1.5" "2.5" 100 7 in
  let data := [mkStationData ping] in
  let self := init cfg 0 [] in
  datalog_enable (config self) = true ∧
  (now_check env - last_time self >= interval self)%Z ∧
  collect 1 data (buffer self) = [] ∧
  (feed 1 env data (self, [])).1 = Ok tt ∧
  last_time (feed 1 env data (self, [])).2.1 = last_time self.
Proof.
  intros cfg env ping data self.
  assert (now_check env - last_time self >= interval self)%Z as Hdue
    by (vm_compute; discriminate).
  pose proof (feed_nothing_to_publish 1 env data self [] eq_refl Hdue eq_refl)
    as (Hout & _ & Htime & _).
  split_and!; [reflexivity|exact Hdue|reflexivity|exact Hout|exact Htime].
Defined.

(** X11.  When the temporary file cannot be created, or cannot be
    written, the exception leaves [feed] before anything is published: no
    content-store call, no record, no pin, no ledger call; the store and
    [last_time] are as before and the measurements stay in the buffer. *)
Theorem feed_aborted_by_tempfile
    (PING : Z) (env : Env) (data : list StationData)
    (self : DatalogFeeder) (tr : list event) (e : string) :
  datalog_enable (config self) = true →
  (now_check env - last_time self >= interval self)%Z →
  collect PING data (buffer self) ≠ [] →
  tempfile_new env = Raise e ∨
  (∃ name, tempfile_new env = Ok name ∧
           tempfile_write env name (snapshot (collect PING data (buffer self)))
             = Raise e) →
  let out := feed PING env data (self, tr) in
  out.1 = Raise e ∧
  buffer out.2.1 = collect PING data (buffer self) ∧
  last_time out.2.1 = last_time self ∧
  db out.2.1 = db self ∧
  ∃ new, out.2.2 = tr ++ new ∧
         Forall (λ ev, is_store_add ev = false ∧ is_db_write ev = false ∧
                       is_pin ev = false ∧ is_ledger ev = false) new.
Proof.
  intros Hen Hdue Hne Hfail out. subst out. rewrite feed_enabled by done.
  destruct (feed_flush_cases env
              (set_buffer (collect PING data (buffer self)) self)
              (tr ++ Log INFO "DatalogFeeder:" :: collect_log PING data))
    as [[Hn _]|[(_ & Hb & _)|[(_ & _ & e' & new & Hf & -> & Hq)|
        [(_ & _ & name' & e' & Ht & Hw & _)|
         (_ & _ & name' & h & rest & Ht & Hw & _)]]]];
    cbn [buffer set_buffer last_time interval] in *; try done.
  - assert (e' = e) as ->.
    { destruct Hfail as [H1|(n1 & H1 & H1')], Hf as [H2|(n2 & H2 & H2')];
        congruence. }
    cbn [fst snd buffer set_buffer last_time db]. split_and!; [done..|].
    eexists. rewrite <- app_assoc. split; [reflexivity|]. split_Forall.
    + apply Forall_forall. intros ev Hev%collect_log_is_log. by destruct ev.
    + eapply Forall_impl; [exact Hq|].
      intros ev [H|[->|[n ->]]]; [by destruct ev|done..].
  - destruct Hfail as [H1|(n1 & H1 & H1')]; congruence.
  - destruct Hfail as [H1|(n1 & H1 & H1')]; congruence.
Qed.

Lemma feed_aborted_by_tempfile_witness :
  let cfg := mkConfig true 60 "" "" "" "" "//Alice" "" false in
  let env := mkEnv 100 101 102 (Raise "disk full") (λ _ _, Ok tt) (λ _ _, Ok "Qm")
               (λ _ _, Ok "t") (λ _ _, Ok 200) (λ _ _ _, Ok tt) (Ok "Qm")
               (λ _, Ok tt) (λ _, Ok "r") in
  let m := mkMeasurement "X" 2 "1.5" "2.5" 100 7 in
  let data := [mkStationData m] in
  let self := init cfg 0 [] in
  datalog_enable (config self) = true ∧
  (now_check env - last_time self >= interval self)%Z ∧
  collect 1 data (buffer self) ≠ [] ∧
  tempfile_new env = Raise "disk full" ∧
  (feed 1 env data (self, [])).1 = Raise "disk full" ∧
  buffer (feed 1 env data (self, [])).2.1 = [m].
Proof.
  intros cfg env m data self.
  assert (now_check env - last_time self >= interval self)%Z as Hdue
    by (vm_compute; discriminate).
  assert (collect 1 data (buffer self) ≠ []) as Hne
    by (vm_compute; discriminate).
  pose proof (feed_aborted_by_tempfile 1 env data self [] "disk full"
                eq_refl Hdue Hne (or_introl eq_refl))
    as (Hout & Hbuf & _).
  split_and!; [reflexivity|exact Hdue|exact Hne|reflexivity|exact Hout|exact Hbuf].
Defined.

(** ** The buffer as a set *)

Lemma set_add_NoDup m s : NoDup s → NoDup (set_add m s).
Proof.
  intros Hs. unfold set_add. destruct (decide (m ∈ s)) as [|Hn]; [done|].
  apply NoDup_app. split_and!; [done| |apply NoDup_singleton].
  by intros x Hx ->%list_elem_of_singleton.
Qed.

Lemma collect_NoDup PING data buf : NoDup buf → NoDup (collect PING data buf).
Proof.
  unfold collect. revert buf. induction data as [|d data IH]; intros buf Hb; simpl; [done|].
  apply IH. destruct (accepted PING (measurement d)); [by apply set_add_NoDup|done].
Qed.

Lemma collect_absorbed PING data buf :
  (∀ d, d ∈ data → accepted PING (measurement d) = true → measurement d ∈ buf) →
  collect PING data buf = buf.
Proof.
  unfold collect. induction data as [|d data IH]; intros Hin; simpl; [done|].
  destruct (accepted PING (measurement d)) eqn:Hacc.
  - unfold set_add. rewrite decide_True.
    + apply IH. intros d' Hd'. apply Hin, elem_of_cons. by right.
    + apply Hin; [|done]. apply elem_of_cons. by left.
  - apply IH. intros d' Hd'. apply Hin, elem_of_cons. by right.
Qed.

(** X12.  The buffer behaves as a set.  From [__init__] on and over any
    sequence of calls of [feed] it never holds a measurement twice; and the
    loop of [feed] absorbs what it has seen: running it again on the same
    batch leaves the buffer as it is. *)
Theorem buffer_is_a_set (PING : Z) :
  (∀ cfg now rows calls, NoDup (buffer (run PING calls (init cfg now rows, [])).1)) ∧
  (∀ data self tr tr',
     let once := (feed_collect PING data (self, tr)).2.1 in
     buffer (feed_collect PING data (once, tr')).2.1 = buffer once).
Proof.
  split.
  - intros cfg now rows calls.
    assert (∀ calls σ, NoDup (buffer σ.1) → NoDup (buffer (run PING calls σ).1)) as Hrun.
    { clear calls. induction calls as [|[env data] calls IH]; intros [self tr] Hnd; [done|].
      cbn [run fst snd] in *. apply IH.
      destruct (feed_buffer_and_snapshots PING env data self tr)
        as [[Hb|[Hb|Hb]] _]; rewrite Hb;
        [apply NoDup_nil_2|done|by apply collect_NoDup]. }
    apply Hrun. apply NoDup_nil_2.
  - intros data self tr tr' once. subst once.
    rewrite !feed_collect_spec. cbn [fst snd buffer set_buffer].
    apply collect_absorbed. intros d Hd Hacc.
    apply collect_elem. right. by exists d.
Qed.

(** ** The submission store over time *)

Lemma row_kept_refl r : row_kept r r.
Proof. unfold row_kept. auto. Qed.

Lemma row_kept_trans r1 r2 r3 : row_kept r1 r2 → row_kept r2 r3 → row_kept r1 r3.
Proof.
  unfold row_kept. intros (-> & -> & -> & H1) (-> & -> & -> & H2).
  split_and!; [done..|]. destruct H1 as [<-|H1], H2 as [H2|H2]; auto.
  right. congruence.
Qed.

Lemma store_grows_refl rows : store_grows rows rows.
Proof. intros i r Hr. exists r. split; [done|apply row_kept_refl]. Qed.

Lemma store_grows_trans r1 r2 r3 :
  store_grows r1 r2 → store_grows r2 r3 → store_grows r1 r3.
Proof.
  intros H12 H23 i r Hr. destruct (H12 i r Hr) as (r' & Hr' & Hk).
  destruct (H23 i r' Hr') as (r'' & Hr'' & Hk'). exists r''.
  split; [done|]. by eapply row_kept_trans.
Qed.

Lemma store_grows_app rows new : store_grows rows (rows ++ new).
Proof.
  intros i r Hr. exists r. split; [by apply lookup_app_l_Some|apply row_kept_refl].
Qed.

Lemma store_grows_update h rows : store_grows rows (db_update_status "sent" h rows).
Proof.
  intros i r Hr. unfold db_update_status. rewrite list_lookup_fmap, Hr. cbn.
  eexists. split; [reflexivity|].
  destruct (decide (content_id r = h)); unfold row_kept; cbn; auto.
Qed.

Lemma feed_store_grows PING env data self tr :
  store_grows (db self) (db (feed PING env data (self, tr)).2.1).
Proof.
  rewrite feed_unfold. destruct (datalog_enable (config self));
    [|apply store_grows_refl].
  destruct (feed_flush_cases env
              (set_buffer (collect PING data (buffer self)) self)
              (tr ++ Log INFO "DatalogFeeder:" :: collect_log PING data))
    as [[_ ->]|[(_ & _ & ->)|[(_ & _ & e & new & _ & -> & _)|
        [(_ & _ & name & e & _ & _ & _ & ->)|
         (Hdue & Hne & name & h & rest & Ht & Hw & Ha & _)]]]];
    try apply store_grows_refl.
  rewrite (feed_flush_published env _ _ name h) by done.
  cbn [config set_buffer buffer db ipfs_endpoint interval].
  destruct (temporal_outcome env (config self) name); cbn [fst snd db set_db].
  - unfold datalog_store.
    destruct (ledger_client env _); [destruct (record_datalog env h)|].
    + eapply store_grows_trans; [apply store_grows_app|apply store_grows_update].
    + apply store_grows_app.
    + apply store_grows_app.
  - apply store_grows_app.
Qed.

(** X13.  The store is append-and-update only.  Over any sequence of calls
    of [feed], whatever the outer world answers, a row that is in the store
    stays at its place with its content identifier, creation time and
    payload; its status either stays as it is or becomes ["sent"].  No row
    is ever deleted, and a ["sent"] row never goes back. *)
Theorem store_rows_live_on
    (PING : Z) (calls : list (Env * list StationData))
    (σ : DatalogFeeder * list event) (i : nat) (r : SubmissionRecord) :
  db σ.1 !! i = Some r →
  ∃ r', db (run PING calls σ).1 !! i = Some r' ∧
        content_id r' = content_id r ∧
        created_at r' = created_at r ∧
        payload_snapshot r' = payload_snapshot r ∧
        (status r' = status r ∨ status r' = "sent").
Proof.
  assert (∀ calls σ, store_grows (db σ.1) (db (run PING calls σ).1)) as Hrun.
  { clear. induction calls as [|[env data] calls IH]; intros [self tr];
      [apply store_grows_refl|].
    cbn [run fst snd]. eapply store_grows_trans; [|apply IH].
    apply feed_store_grows. }
  intros Hr. exact (Hrun calls σ i r Hr).
Qed.

Lemma store_rows_live_on_witness :
  let cfg := mkConfig true 60 "" "" "" "" "//Alice" "" false in
  let env := mkEnv 100 101 102 (Ok "/tmp/f") (λ _ _, Ok tt) (λ _ _, Ok "Qm")
               (λ _ _, Ok "t") (λ _ _, Ok 200) (λ _ _ _, Ok tt) (Ok "Qm")
               (λ _, Ok tt) (λ _, Ok "0xabc-1") in
  let m := mkMeasurement "X" 2 "1.5" "2.5" 100 7 in
  let old := mkRecord "not sent" "Qm" 5 "{}" in
  let σ := (init cfg 0 [old], @nil event) in
  db σ.1 !! 0%nat = Some old ∧
  ∃ r', db (run 1 [(env, [mkStationData m])] σ).1 !! 0%nat = Some r' ∧
        content_id r' = content_id old ∧
        created_at r' = created_at old ∧
        payload_snapshot r' = payload_snapshot old ∧
        (status r' = status old ∨ status r' = "sent").
Proof.
  intros cfg env m old σ. split; [reflexivity|].
  exact (store_rows_live_on 1 [(env, [mkStationData m])] σ 0 old eq_refl).
Defined.

(** ** How often a call of [feed] reaches the outer services *)

Lemma count_calls_app kind l1 l2 :
  count_calls kind (l1 ++ l2) = (count_calls kind l1 + count_calls kind l2)%nat.
Proof. unfold count_calls. by rewrite filter_app, length_app. Qed.

Lemma count_calls_cons kind ev l :
  count_calls kind (ev :: l) =
    ((if kind ev then 1 else 0) + count_calls kind l)%nat.
Proof.
  unfold count_calls. rewrite filter_cons.
  destruct (kind ev); destruct (decide _); done.
Qed.

Lemma count_calls_none kind l :
  Forall (λ ev, kind ev = false) l → count_calls kind l = 0%nat.
Proof.
  induction 1 as [|ev l Hev _ IH]; [done|]. by rewrite count_calls_cons, Hev, IH.
Qed.

Lemma once_kind_not_log kind ev : once_kind kind → is_log ev = true → kind ev = false.
Proof. intros [-> | [-> | ->]]; by destruct ev. Qed.

Lemma once_kind_not_pin kind ev : once_kind kind → is_pin ev = true → kind ev = false.
Proof. intros [-> | [-> | ->]]; by destruct ev. Qed.

Lemma count_calls_logs_pins kind l :
  once_kind kind → Forall (λ ev, is_log ev || is_pin ev = true) l →
  count_calls kind l = 0%nat.
Proof.
  intros Hk Hl. apply count_calls_none. eapply Forall_impl; [exact Hl|].
  intros ev [?|?]%orb_true_iff;
    [by apply once_kind_not_log|by apply once_kind_not_pin].
Qed.

Lemma count_calls_quiet kind s l :
  once_kind kind → Forall (quiet s) l → count_calls kind l = 0%nat.
Proof.
  intros Hk Hl. apply count_calls_none. eapply Forall_impl; [exact Hl|].
  intros ev [H|[->|[n ->]]]; [by apply once_kind_not_log| |];
    by destruct Hk as [-> | [-> | ->]].
Qed.

Lemma count_calls_collect_log kind PING data :
  once_kind kind → count_calls kind (collect_log PING data) = 0%nat.
Proof.
  intros Hk. apply count_calls_none, Forall_forall.
  intros ev Hev%collect_log_is_log. by apply once_kind_not_log.
Qed.

(** Counts the calls of a trace made of explicit events, log lines and
    the calls of the two pins. *)
Ltac count_up :=
  repeat first
    [ rewrite count_calls_app
    | rewrite count_calls_cons
    | rewrite count_calls_collect_log by done
    | rewrite (count_calls_logs_pins _ (temporal_trace _ _ _)) by done
    | rewrite (count_calls_logs_pins _ (pinata_trace _ _ _)) by done ];
  cbn; lia.

(** X14.  One call of [feed] adds to the content store once at most,
    writes a record only after such an add, and calls [record_datalog] only
    after such a write: in the calls it makes, the ledger records are at
    most as many as the record writes, these at most as many as the
    content-store adds, and these at most one. *)
Theorem feed_publishes_at_most_once
    (PING : Z) (env : Env) (data : list StationData)
    (self : DatalogFeeder) (tr : list event) :
  ∃ new, (feed PING env data (self, tr)).2.2 = tr ++ new ∧
    (count_calls is_ledger_record new ≤ count_calls is_record_write new)%nat ∧
    (count_calls is_record_write new ≤ count_calls is_store_add new)%nat ∧
    (count_calls is_store_add new ≤ 1)%nat.
Proof.
  assert (once_kind is_store_add) as K1 by (by left).
  assert (once_kind is_record_write) as K2 by (right; by left).
  assert (once_kind is_ledger_record) as K3 by (by do 2 right).
  rewrite feed_unfold. destruct (datalog_enable (config self)).
  2:{ exists []. rewrite app_nil_r. split; [done|]. cbn. lia. }
  destruct (feed_flush_cases env
              (set_buffer (collect PING data (buffer self)) self)
              (tr ++ Log INFO "DatalogFeeder:" :: collect_log PING data))
    as [[_ ->]|[(_ & _ & ->)|[(_ & _ & e & new & _ & -> & Hq)|
        [(_ & _ & name & e & _ & _ & _ & ->)|
         (Hdue & Hne & name & h & rest & Ht & Hw & Ha & _)]]]].
  - eexists. cbn [fst snd]. rewrite <- app_assoc. split; [reflexivity|]. count_up.
  - eexists. cbn [fst snd]. rewrite <- app_assoc. split; [reflexivity|]. count_up.
  - eexists. cbn [fst snd]. rewrite <- app_assoc. split; [reflexivity|].
    rewrite !count_calls_app, !(count_calls_quiet _ _ new) by done.
    count_up.
  - eexists. cbn [fst snd]. rewrite <- app_assoc. split; [reflexivity|].
    unfold publish_prefix, before_add. count_up.
  - rewrite (feed_flush_published env _ _ name h) by done.
    cbn [config set_buffer buffer db ipfs_endpoint interval].
    pose proof (temporal_trace_kinds env (config self) name) as Htk.
    assert (Forall (λ ev, is_log ev || is_pin ev = true)
              (temporal_trace env (config self) name)) as Htk'.
    { eapply Forall_impl; [exact Htk|]. by intros ev [? _]. }
    pose proof (pinata_trace_kinds env (config self) name) as Hpk.
    destruct (temporal_outcome env (config self) name); cbn [fst snd].
    + eexists. rewrite <- !app_assoc. split; [reflexivity|].
      unfold publish_prefix, before_add, datalog_trace.
      destruct (ledger_client env _); [destruct (record_datalog env h)|]; count_up.
    + eexists. rewrite <- !app_assoc. split; [reflexivity|].
      unfold publish_prefix, before_add. count_up.
Qed.

(** ** [DatalogFeeder.__init__] *)

(** X15.  A new feeder has an empty buffer and always has a content-store
    endpoint: the configured provider when there is one, and the local
    default otherwise, never the empty string.  Its first call of [feed],
    made before [dump_interval] has elapsed since construction, publishes
    nothing, whatever it is fed. *)
Theorem init_endpoint_and_first_feed
    (PING : Z) (cfg : Config) (now : Z) (rows : list SubmissionRecord)
    (env : Env) (data : list StationData) :
  let self := init cfg now rows in
  buffer self = [] ∧
  truthy (ipfs_endpoint self) = true ∧
  (truthy (robonomics_ipfs_provider cfg) = true →
   ipfs_endpoint self = robonomics_ipfs_provider cfg) ∧
  (truthy (robonomics_ipfs_provider cfg) = false →
   ipfs_endpoint self = "/ip4/127.0.0.1/tcp/5001/http") ∧
  ((now_check env - now < datalog_dump_interval cfg)%Z →
   Forall (λ ev, is_log ev = true) (feed PING env data (self, [])).2.2).
Proof.
  intros self. subst self. unfold init. cbn [buffer ipfs_endpoint].
  split; [done|]. split_and!.
  - by destruct (truthy (robonomics_ipfs_provider cfg)) eqn:Hp.
  - by intros ->.
  - by intros ->.
  - intros Hearly. rewrite feed_unfold.
    cbn [config buffer].
    destruct (datalog_enable cfg); [|constructor].
    match goal with |- context [feed_flush env (?s, ?t)] =>
      destruct (feed_flush_cases env s t)
        as [[_ ->]|[[Hdue _]|[[Hdue _]|[[Hdue _]|[Hdue _]]]]] end;
      try (cbn in Hdue; lia).
    cbn [fst snd]. split_Forall; try done.
    apply Forall_forall, collect_log_is_log.
Qed.

(** ** [FrontierFeeder.feed], the enable switch and the size of a run *)

Lemma length_frontier_trace str fenv i data :
  length (frontier_trace str fenv i data) = (2 * length data)%nat.
Proof.
  revert i. induction data as [|d data IH]; intros i; [done|].
  cbn [frontier_trace frontier_item_trace]. rewrite length_app, IH. cbn. lia.
Qed.

(** X16.  A disabled frontier feeder does nothing: it does not build the
    ledger account and makes no call.  An enabled one never changes its
    configuration and first builds the account from [datalog.suri]; if that
    raises, the exception leaves [feed] and nothing else is done; otherwise
    it makes exactly two calls per item, the submission and one log line,
    also for an item whose measurement is not public or is of the ping
    model: the frontier feeder does not filter. *)
Theorem frontier_feed_gate_and_size
    (str : Measurement → string) (fenv : FrontierEnv)
    (data : list StationData) (cfg : Config) (tr : list event) :
  let out := frontier_feed str fenv data (cfg, tr) in
  out.2.1 = cfg ∧
  (frontier_enable cfg = false → out = (Ok tt, (cfg, tr))) ∧
  (frontier_enable cfg = true →
   match frontier_account fenv (datalog_suri cfg) with
   | Raise e => out = (Raise e, (cfg, tr ++ [LedgerClient (datalog_suri cfg)]))
   | Ok _ =>
       ∃ new, out.2.2 = tr ++ LedgerClient (datalog_suri cfg) :: new ∧
              length new = (2 * length data)%nat ∧
              length (submitted new) = length data
   end).
Proof.
  intros out. subst out. unfold frontier_feed. run_m.
  destruct (frontier_enable cfg); run_m.
  - destruct (frontier_account fenv (datalog_suri cfg)) as [[]|e0].
    2:{ split; [done|]. split; [done|]. done. }
    rewrite frontier_loop_spec. cbn [fst snd]. split; [done|]. split; [done|].
    intros _. exists (frontier_trace str fenv 0 data). split_and!.
    + by rewrite <- app_assoc.
    + apply length_frontier_trace.
    + by rewrite submitted_frontier_trace, length_fmap.
  - split; [done|]. split; [done|]. done.
Qed.

(** ** [_get_multihash] as a whole *)

(** X17.  [_get_multihash] never touches the buffer, [last_time] or the
    configuration.  When it returns a content identifier and a file name,
    that file was written with the snapshot of the buffer and then added to
    the content store at the given endpoint, the identifier is the one the
    store returned, and the payload kept in the new record is the very text
    that was written to the file.  When it raises, the store is as
    before and no record was written. *)
Theorem _get_multihash_outcome
    (env : Env) (buf : list Measurement) (ep : string)
    (self : DatalogFeeder) (tr : list event) :
  let out := _get_multihash env buf ep (self, tr) in
  buffer out.2.1 = buffer self ∧
  last_time out.2.1 = last_time self ∧
  config out.2.1 = config self ∧
  (∃ new, out.2.2 = tr ++ new ∧
     (∀ h name, out.1 = Ok (h, name) →
        ipfs_add env ep name = Ok h ∧
        (∃ pre,
           new = pre ++ [TempFileWrite name (snapshot buf); IpfsAdd ep name;
                         DbAddData "not sent" h (now_record env) (snapshot buf)]) ∧
        db out.2.1 = db self ++ [mkRecord "not sent" h (now_record env) (snapshot buf)]) ∧
     (∀ e, out.1 = Raise e →
        db out.2.1 = db self ∧ Forall (λ ev, is_db_write ev = false) new)).
Proof.
  intros out. subst out. rewrite _get_multihash_spec. cbn zeta.
  destruct (tempfile_new env) as [name|e]; cbn [fst snd].
  2:{ split_and!; [done..|]. eexists. split; [reflexivity|]. split; [done|].
      intros e' _. split; [done|]. by repeat constructor. }
  destruct (tempfile_write env name (snapshot buf)) as [[]|e]; cbn [fst snd].
  2:{ split_and!; [done..|]. eexists. rewrite <- !app_assoc.
      split; [reflexivity|]. split; [done|].
      intros e' _. split; [done|]. by repeat constructor. }
  destruct (ipfs_add env ep name) as [h|e] eqn:Hadd; cbn [fst snd].
  2:{ split_and!; [done..|]. eexists. rewrite <- !app_assoc.
      split; [reflexivity|]. split; [done|].
      intros e' _. split; [done|]. by repeat constructor. }
  split_and!; [done..|]. eexists. rewrite <- !app_assoc. split; [reflexivity|].
  split; [|done]. intros h' name' [= <- <-]. split_and!; [done| |done].
  by exists [Log DEBUG "Payload before sorting: "; Log DEBUG "Payload sorted: ";
             TempFileCreate; Log DEBUG ("Created temp file: " +:+ name)].
Qed.

(** ** A flush cycle that cannot build the ledger client *)

(** X18.  A flush cycle cut short in [to_datalog].  Under the conditions
    of a published flush, when building the ledger client raises, the
    exception leaves [feed] after the buffer was cleared and [last_time]
    reset: [record_datalog] is not called, the record of the cycle stays
    ["not sent"], and the measurements of the cycle are no longer
    buffered. *)
Theorem feed_aborted_by_ledger_client
    (PING : Z) (env : Env) (data : list StationData)
    (self : DatalogFeeder) (tr : list event) (name h e : string) :
  datalog_enable (config self) = true →
  (now_check env - last_time self >= interval self)%Z →
  collect PING data (buffer self) ≠ [] →
  tempfile_new env = Ok name →
  tempfile_write env name (snapshot (collect PING data (buffer self))) = Ok tt →
  ipfs_add env (ipfs_endpoint self) name = Ok h →
  (_pin_to_temporal env name (self, [])).1 = Ok tt →
  ledger_client env (datalog_suri (config self)) = Raise e →
  let out := feed PING env data (self, tr) in
  let s := snapshot (collect PING data (buffer self)) in
  out.1 = Raise e ∧
  buffer out.2.1 = [] ∧
  last_time out.2.1 = now_reset env ∧
  db out.2.1 = db self ++ [mkRecord "not sent" h (now_record env) s] ∧
  ∃ new, out.2.2 = tr ++ new ∧
         Forall (λ ev, is_ledger_record ev = false) new ∧
         last new = Some (LedgerClient (datalog_suri (config self))).
Proof.
  intros Hen Hdue Hne Hnew Hwr Hadd Htemp Hclient out s. subst out s.
  rewrite _pin_to_temporal_result in Htemp.
  rewrite feed_enabled by done.
  rewrite (feed_flush_published env _ _ name h) by done.
  cbn [config set_buffer buffer db ipfs_endpoint interval].
  rewrite Htemp. unfold datalog_outcome, datalog_store, datalog_trace.
  rewrite Hclient. cbn [fst snd buffer last_time db].
  split_and!; [done..|].
  eexists. rewrite <- !app_assoc. split; [reflexivity|]. split.
  - split_Forall.
    + apply Forall_forall. intros ev Hev%collect_log_is_log. by destruct ev.
    + eapply Forall_impl; [apply temporal_trace_kinds|].
      intros ev [Hk _]. by destruct ev.
    + eapply Forall_impl; [apply pinata_trace_kinds|].
      intros ev Hk. by destruct ev.
  - repeat (rewrite last_app || rewrite last_cons). done.
Qed.

Lemma feed_aborted_by_ledger_client_witness :
  let cfg := mkConfig true 60 "" "" "" "" "//Alice" "" false in
  let env := mkEnv 100 101 102 (Ok "/tmp/f") (λ _ _, Ok tt) (λ _ _, Ok "Qm")
               (λ _ _, Ok "t") (λ _ _, Ok 200) (λ _ _ _, Ok tt) (Ok "Qm")
               (λ _, Raise "ValueError") (λ _, Ok "0xabc-1") in
  let m := mkMeasurement "X" 2 "1.5" "2.5" 100 7 in
  let data := [mkStationData m] in
  let self := init cfg 0 [] in
  datalog_enable (config self) = true ∧
  (now_check env - last_time self >= interval self)%Z ∧
  collect 1 data (buffer self) ≠ [] ∧
  tempfile_new env = Ok "/tmp/f" ∧
  tempfile_write env "/tmp/f" (snapshot (collect 1 data (buffer self))) = Ok tt ∧
  ipfs_add env (ipfs_endpoint self) "/tmp/f" = Ok "Qm" ∧
  (_pin_to_temporal env "/tmp/f" (self, [])).1 = Ok tt ∧
  ledger_client env (datalog_suri (config self)) = Raise "ValueError" ∧
  (feed 1 env data (self, [])).1 = Raise "ValueError" ∧
  buffer (feed 1 env data (self, [])).2.1 = [] ∧
  db (feed 1 env data (self, [])).2.1 = [mkRecord "not sent" "Qm" 101 (snapshot [m])].
Proof.
  intros cfg env m data self.
  assert (now_check env - last_time self >= interval self)%Z as Hdue
    by (vm_compute; discriminate).
  assert (collect 1 data (buffer self) ≠ []) as Hne
    by (vm_compute; discriminate).
  pose proof (feed_aborted_by_ledger_client 1 env data self [] "/tmp/f" "Qm"
                "ValueError" eq_refl Hdue Hne eq_refl eq_refl eq_refl eq_refl eq_refl)
    as (Hout & Hbuf & _ & Hdb & _).
  split_and!;
    [reflexivity|exact Hdue|exact Hne|reflexivity..|exact Hout|exact Hbuf|exact Hdb].
Defined.
